(** * TechLife LED controller: frame codec and device-state model

    A shallow embedding of [techlife_led.py] (class [TechlifeLED]) and the
    properties of its wire frames and of its client-side state.

    Python values are modelled as follows.
    - [int] is [Z]; a byte of a [bytes]/[bytearray] is a [Z] in [0, 255].
    - [float] is IEEE-754 binary64, through the Standard Library's
      [spec_float] with precision 53 and maximal exponent 1024.
    - An exception is a value of [exn]; a computation that may raise
      returns a [result].
    - A method of the controller is a function from the object to an
      outcome and the object as the call left it ([M]); an exception keeps
      the assignments made before it was raised.
    - The MQTT client is the list of payloads published so far. *)

From Stdlib Require Import ZArith Lia Bool.
From Stdlib.Strings Require Import Byte.
From Stdlib Require Import SpecFloat.
From stdpp Require Import base list.

Local Open Scope Z_scope.

(** ** Exceptions and results *)

Inductive exn : Type :=
| InvalidColor       (* ValueError("Invalid color: ...") of [set_color] *)
| ForeignError       (* an exception of the colour library other than ValidationError *)
| StructError        (* struct.error: argument out of range or wrong count *)
| TypeError          (* reduce() of an empty sequence with no initial value *)
| IndexError         (* bytearray index out of range *)
| OverflowError      (* int too large for float, or float infinity to int *)
| NanError           (* ValueError: cannot convert float NaN to integer *)
| ZeroDivisionError.

Inductive result (A : Type) : Type :=
| Return (a : A)
| Raise (e : exn).
Arguments Return {A} a.
Arguments Raise {A} e.

#[global] Instance result_ret : MRet result := fun A a => Return a.
#[global] Instance result_bind : MBind result := fun A B k r =>
  match r with
  | Return a => k a
  | Raise e => Raise e
  end.

(** ** Python floats *)

Module PyFloat.

Definition prec : Z := 53.
Definition emax : Z := 1024.

Definition float : Type := spec_float.

Definition is_finite (f : float) : bool :=
  match f with
  | S754_zero _ | S754_finite _ _ _ => true
  | _ => false
  end.

Definition is_zero (f : float) : bool :=
  match f with
  | S754_zero _ => true
  | _ => false
  end.

Definition sign (f : float) : bool :=
  match f with
  | S754_zero s | S754_infinity s | S754_finite s _ _ => s
  | S754_nan => false
  end.

(** The nearest double of an integer, ties to even. *)
Definition of_Z (n : Z) : float := binary_normalize prec emax n 0 false.

(** [float(n)] for an int [n], as done implicitly when an int meets a
    float in arithmetic: OverflowError when [n] is out of range. *)
Definition of_int (n : Z) : result float :=
  let f := of_Z n in
  if is_finite f then Return f else Raise OverflowError.

(** The exact value of a finite double as a fraction [(n, d)], [d > 0]. *)
Definition fraction (f : float) : option (Z * Z) :=
  match f with
  | S754_zero _ => Some (0, 1)
  | S754_finite s m e =>
      let v := cond_Zopp s (Zpos m) in
      Some (if 0 <=? e then (v * 2 ^ e, 1) else (v, 2 ^ (- e)))
  | _ => None
  end.

(** [x * y] *)
Definition mul (x y : float) : float := SFmul prec emax x y.

(** [x / y] *)
Definition truediv (x y : float) : result float :=
  if is_zero y then Raise ZeroDivisionError else Return (SFdiv prec emax x y).

(** [x // y]: the floor of the exact quotient of the two doubles, which
    is what CPython's float_divmod obtains through fmod (each of its
    steps is exact while the quotient is below 2^53). *)
Definition floordiv (x y : float) : result float :=
  if is_zero y then Raise ZeroDivisionError else
  match fraction x, fraction y with
  | Some (nx, dx), Some (ny, dy) =>
      Return (binary_normalize prec emax ((nx * dy) / (dx * ny)) 0
                (xorb (sign x) (sign y)))
  | Some (nx, _), None =>
      match y with
      | S754_infinity sy =>
          Return (if (nx =? 0) || Bool.eqb (sign x) sy
                  then S754_zero (xorb (sign x) sy)
                  else S754_finite true 4503599627370496 (-52))
      | _ => Return S754_nan
      end
  | None, _ => Return S754_nan
  end.

(** [int(x)]: truncation towards zero. *)
Definition to_int (x : float) : result Z :=
  match x with
  | S754_nan => Raise NanError
  | S754_infinity _ => Raise OverflowError
  | _ => match fraction x with
         | Some (n, d) => Return (Z.quot n d)
         | None => Raise NanError
         end
  end.

(** [round(x)] with one argument: the nearest integer, ties to even. *)
Definition round (x : float) : result Z :=
  match x with
  | S754_nan => Raise NanError
  | S754_infinity _ => Raise OverflowError
  | _ => match fraction x with
         | Some (n, d) =>
             let q := n / d in
             let r := n mod d in
             Return (match 2 * r ?= d with
                     | Lt => q
                     | Gt => q + 1
                     | Eq => if Z.even q then q else q + 1
                     end)
         | None => Raise NanError
         end
  end.

End PyFloat.

(** ** struct.Struct *)

Module Struct.

(** Format characters: [B] unsigned char, [H] unsigned short. *)
Inductive code : Type := B | H.

(** One argument, in little-endian byte order (the format starts with
    [<]: standard sizes, no padding). *)
Definition pack1 (c : code) (v : Z) : result (list Z) :=
  match c with
  | B => if (0 <=? v) && (v <=? 255) then Return [v] else Raise StructError
  | H => if (0 <=? v) && (v <=? 65535)
         then Return [Z.land v 255; Z.shiftr v 8]
         else Raise StructError
  end.

Fixpoint pack (fmt : list code) (args : list Z) : result (list Z) :=
  match fmt, args with
  | [], [] => Return []
  | c :: fmt', v :: args' =>
      b ← pack1 c v; rest ← pack fmt' args'; Return (b ++ rest)
  | _, _ => Raise StructError
  end.

Definition size1 (c : code) : nat :=
  match c with B => 1%nat | H => 2%nat end.

(** [Struct.size] *)
Definition size (fmt : list code) : nat := foldr (fun c n => (size1 c + n)%nat) 0%nat fmt.

End Struct.

(** ** The controller object *)

(** The attributes of a [TechlifeLED] that the frame logic reads or
    writes.  [_color] holds the channels that [Color.as_rgb_tuple] returns
    for the stored colour; [client] holds the payloads handed to
    [client.publish], oldest first (topic and QoS are fixed per object). *)
Record TechlifeLED : Type := {
  _on : bool;
  _brightness : PyFloat.float;
  _color : Z * Z * Z;
  _animation_speed : Z;
  client : list (list Z)
}.

Definition with_on (v : bool) (s : TechlifeLED) : TechlifeLED :=
  {| _on := v; _brightness := _brightness s; _color := _color s;
     _animation_speed := _animation_speed s; client := client s |}.

Definition with_brightness (v : PyFloat.float) (s : TechlifeLED) : TechlifeLED :=
  {| _on := _on s; _brightness := v; _color := _color s;
     _animation_speed := _animation_speed s; client := client s |}.

Definition with_color (v : Z * Z * Z) (s : TechlifeLED) : TechlifeLED :=
  {| _on := _on s; _brightness := _brightness s; _color := v;
     _animation_speed := _animation_speed s; client := client s |}.

Definition with_animation_speed (v : Z) (s : TechlifeLED) : TechlifeLED :=
  {| _on := _on s; _brightness := _brightness s; _color := _color s;
     _animation_speed := v; client := client s |}.

(** [client.publish(topic, payload, qos)] *)
Definition publish (payload : list Z) (s : TechlifeLED) : TechlifeLED :=
  {| _on := _on s; _brightness := _brightness s; _color := _color s;
     _animation_speed := _animation_speed s; client := client s ++ [payload] |}.

(** A method body: the object goes in, the outcome and the object come out. *)
Definition M (A : Type) : Type := TechlifeLED → result A * TechlifeLED.

#[global] Instance M_ret : MRet M := fun A a s => (Return a, s).
#[global] Instance M_bind : MBind M := fun A B k m s =>
  match m s with
  | (Return a, s') => k a s'
  | (Raise e, s') => (Raise e, s')
  end.

Definition lift {A : Type} (r : result A) : M A := fun s => (r, s).
Definition read {A : Type} (f : TechlifeLED → A) : M A := fun s => (Return (f s), s).
Definition assign (f : TechlifeLED → TechlifeLED) : M unit := fun s => (Return tt, f s).

(** Class constants. *)
Definition _FRAME : list Struct.code :=
  [Struct.B] ++ repeat Struct.H 6 ++ repeat Struct.B 3.

Definition _CMD_SET_STATIC : Z := 0x28.
Definition _TAIL_SET_STATIC : Z := 0x29.
Definition _FLAG_SET_STATIC : Z := 0x0F.

Definition _CMD_ANIMATE : Z := 0x66.
Definition _SUBMODE_ANIMATE : Z := 0x25.
Definition _TAIL_ANIMATE : Z := 0x99.

Definition _CMD_POWER : Z := 0xFA.
Definition _SUB_ON : Z := 0x23.
Definition _SUB_OFF : Z := 0x24.
Definition _TAIL_POWER : Z := 0xFB.

Definition _CMD_UPDATE : Z := 0xA9.
Definition _SUB_UPDATE : Z := 0xF0.
Definition _TAIL_UPDATE : Z := 0x9A.

(** [__init__] *)
Definition init : TechlifeLED :=
  {| _on := false;
     _brightness := PyFloat.of_Z 1;
     _color := (255, 255, 255);
     _animation_speed := 99;
     client := [] |}.

(** [l[lo:hi]] for literal bounds [lo <= hi]. *)
Definition slice (lo hi : nat) (l : list Z) : list Z := take (hi - lo) (drop lo l).

(** [functools.reduce(f, l)] with no initial value. *)
Definition reduce (f : Z → Z → Z) (l : list Z) : result Z :=
  match l with
  | [] => Raise TypeError
  | x :: t => Return (foldl f x t)
  end.

Definition _insert_checksum (frame : list Z) : result (list Z) :=
  let payload := frame in
  x ← reduce Z.lxor (slice 1 14 payload);
  let checksum := Z.land x 0xFF in
  if decide (14 < length payload)%nat
  then Return (<[14%nat := checksum]> payload)
  else Raise IndexError.

Definition _send_with_checksum (frame : list Z) : M unit :=
  payload ← lift (_insert_checksum frame);
  assign (publish payload).

Definition on : M unit :=
  frame ← lift (Struct.pack _FRAME
                  [_CMD_POWER; _SUB_ON; 0; 0; 0; 0; 0; 0; 0; _TAIL_POWER]);
  _send_with_checksum frame;;
  assign (with_on true).

Definition off : M unit :=
  frame ← lift (Struct.pack _FRAME
                  [_CMD_POWER; _SUB_OFF; 0; 0; 0; 0; 0; 0; 0; _TAIL_POWER]);
  _send_with_checksum frame;;
  assign (with_on false).

Definition is_on (s : TechlifeLED) : bool := _on s.

(** The local function [level] of [_apply_static]:
    [int((x * 10000 * self._brightness) // 255)]. *)
Definition level (brightness : PyFloat.float) (x : Z) : result Z :=
  fx ← PyFloat.of_int (x * 10000);
  d ← PyFloat.of_int 255;
  q ← PyFloat.floordiv (PyFloat.mul fx brightness) d;
  PyFloat.to_int q.

(** [int(round(100 * self._brightness))] *)
Definition brightness_0_100 (brightness : PyFloat.float) : result Z :=
  c ← PyFloat.of_int 100;
  PyFloat.round (PyFloat.mul c brightness).

Definition _apply_static : M unit :=
  '(r, g, b) ← read _color;
  brightness ← read _brightness;
  red ← lift (level brightness r);
  green ← lift (level brightness g);
  blue ← lift (level brightness b);
  pct ← lift (brightness_0_100 brightness);
  frame ← lift (Struct.pack _FRAME
                  [_CMD_SET_STATIC; red; green; blue; 0; 0; pct;
                   _FLAG_SET_STATIC; 0; _TAIL_SET_STATIC]);
  _send_with_checksum frame.

(** What the colour library makes of the argument of [set_color]: the
    channels of the resulting [Color] (the argument itself when it is one
    already), a [ValidationError], or an error of another class.
    pydantic's [Color] reports an argument that it cannot parse with an
    error class of its own (PydanticCustomError; ColorError in version
    1), which is not a [ValidationError]: that outcome is [OtherError]. *)
Inductive ColorResult : Type :=
| Rgb (r g b : Z)
| ValidationError
| OtherError.

Section WithColorLibrary.

Context {ColorLike : Type} (Color : ColorLike → ColorResult).

Definition set_color (color : ColorLike) : M unit :=
  match Color color with
  | Rgb r g b => assign (with_color (r, g, b));; _apply_static
  | ValidationError => lift (Raise InvalidColor)
  | OtherError => lift (Raise ForeignError)
  end.

End WithColorLibrary.

Definition set_brightness (value : Z) : M unit :=
  let value := Z.max 0 (Z.min 100 value) in
  fv ← lift (PyFloat.of_int value);
  c ← lift (PyFloat.of_int 100);
  b ← lift (PyFloat.truediv fv c);
  assign (with_brightness b);;
  _apply_static.

Definition get_brightness (s : TechlifeLED) : result Z :=
  c ← PyFloat.of_int 100;
  PyFloat.round (PyFloat.mul (_brightness s) c).

Definition set_animation_speed (speed : Z) : M unit :=
  let speed := Z.max 1 (Z.min 100 speed) in
  assign (with_animation_speed speed).

Definition animate (enabled : bool) : M unit :=
  if enabled then
    speed ← read _animation_speed;
    let device_speed := (100 - speed) * 255 / 100 in
    frame ← lift (Struct.pack _FRAME
                    [_CMD_ANIMATE; _SUBMODE_ANIMATE; device_speed; 0x64; 0; 0; 0;
                     0; 0; _TAIL_ANIMATE]);
    _send_with_checksum frame
  else _apply_static.

Definition update : M unit :=
  frame ← lift (Struct.pack _FRAME
                  [_CMD_UPDATE; _SUB_UPDATE; 0; 0; 0; 0; 0; 0; 0; _TAIL_UPDATE]);
  _send_with_checksum frame;;
  assign (with_on true).

(** ** Calls and reachable objects *)

Section Calls.

Context {ColorLike : Type} (Color : ColorLike → ColorResult).

(** The state-changing public methods ([is_on] and [get_brightness]
    only read; [connect] and [close] only concern the transport). *)
Inductive call : Type :=
| On
| Off
| SetColor (color : ColorLike)
| SetBrightness (value : Z)
| SetAnimationSpeed (speed : Z)
| Animate (enabled : bool)
| Update.

Definition run (c : call) : M unit :=
  match c with
  | On => on
  | Off => off
  | SetColor color => set_color Color color
  | SetBrightness value => set_brightness value
  | SetAnimationSpeed speed => set_animation_speed speed
  | Animate enabled => animate enabled
  | Update => update
  end.

(** The objects a caller can hold: a fresh one, or one on which a method
    was called (whether it returned or raised). *)
Inductive reachable : TechlifeLED → Prop :=
| reachable_init : reachable init
| reachable_call (c : call) (s : TechlifeLED) :
    reachable s → reachable (snd (run c s)).

End Calls.

Arguments call : clear implicits.

(** The double stored by [set_brightness] for a clamped percentage. *)
Definition fraction_of_percent (p : Z) : PyFloat.float :=
  SFdiv PyFloat.prec PyFloat.emax (PyFloat.of_Z p) (PyFloat.of_Z 100).

Definition channel_ok (x : Z) : Prop := 0 ≤ x ≤ 255.

Definition color_ok (s : TechlifeLED) : Prop :=
  let '(r, g, b) := _color s in channel_ok r ∧ channel_ok g ∧ channel_ok b.

(** The state invariant. *)
Record wf (s : TechlifeLED) : Prop := {
  wf_color : color_ok s;
  wf_brightness : ∃ p, 0 ≤ p ≤ 100 ∧ _brightness s = fraction_of_percent p;
  wf_speed : 1 ≤ _animation_speed s ≤ 100
}.

(** ** The formulas of the specification *)

Module Spec.

(** XOR of the bytes at offsets [lo] through [hi] inclusive. *)
Definition xor_range (lo hi : nat) (frame : list Z) : Z :=
  foldr Z.lxor 0 (map (fun i => nth i frame 0) (seq lo (S hi - lo))).

(** The [k]-th of the six u16 fields (k = 1..6), little-endian, after
    the command byte. *)
Definition u16_field (k : nat) (frame : list Z) : Z :=
  nth (2 * k - 1) frame 0 + 256 * nth (2 * k) frame 0.

(** Clamping into [lo, hi]. *)
Definition clamp (lo hi v : Z) : Z :=
  if v <? lo then lo else if hi <? v then hi else v.

(** [floor(x * 10000 * brightnessFraction / 255)] for the fraction
    [pct / 100], in exact arithmetic. *)
Definition channel_exact (x pct : Z) : Z := (x * 10000 * pct) / (100 * 255).

(** [floor((100 - userSpeed) * 255 / 100)] *)
Definition device_speed (userSpeed : Z) : Z := (100 - userSpeed) * 255 / 100.

End Spec.

(** ** A colour library for closed examples

    The part of pydantic's [Color] that the examples use: a tuple of
    three ints is accepted when each lies in [0, 255] and refused
    otherwise, the notation [#rrggbb] with six hexadecimal digits is
    accepted, and the string [not-a-color] is refused.  A refusal is the
    library's own error, not a ValidationError. *)

Inductive SampleColorLike : Type :=
| Tuple (r g b : Z)            (* the tuple (r, g, b) *)
| Hex (r g b : Byte.byte)      (* the string "#rrggbb", two digits a channel *)
| NotAColor.                   (* the string "not-a-color" *)

Definition sample_Color (c : SampleColorLike) : ColorResult :=
  match c with
  | Tuple r g b =>
      if (0 <=? r) && (r <=? 255) && (0 <=? g) && (g <=? 255)
         && (0 <=? b) && (b <=? 255)
      then Rgb r g b else OtherError
  | Hex r g b =>
      Rgb (Z.of_nat (Byte.to_nat r)) (Z.of_nat (Byte.to_nat g))
          (Z.of_nat (Byte.to_nat b))
  | NotAColor => OtherError
  end.

(** ** Exhaustive checks over the percentages and the channel values *)

Definition below (n : nat) : list Z := map Z.of_nat (seq 0 n).

Definition returns (r : result Z) (v : Z) : bool :=
  match r with
  | Return a => a =? v
  | Raise _ => false
  end.

(** [float(p)] exists, and the stored fraction brings back [p] both ways
    round. *)
Definition check_percent (p : Z) : bool :=
  PyFloat.is_finite (PyFloat.of_Z p)
  && negb (PyFloat.is_zero (PyFloat.of_Z 100))
  && returns (brightness_0_100 (fraction_of_percent p)) p
  && returns (get_brightness (with_brightness (fraction_of_percent p) init)) p.

(** [level] returns; its value lies in [0, 10000], and it is the value
    of the specification's formula in exact arithmetic or one less. *)
Definition check_level (p x : Z) : bool :=
  match level (fraction_of_percent p) x with
  | Return v =>
      (0 <=? v) && (v <=? 10000)
      && ((v =? Spec.channel_exact x p) || (v =? Spec.channel_exact x p - 1))
  | Raise _ => false
  end.

Definition check_row (p : Z) : bool :=
  check_percent p && forallb (check_level p) (below 256).

Definition percents : list Z := below 101.

(** ** Published frames *)

(** The sixteen bytes that go out for the arguments of [_FRAME.pack]: the
    command byte, six little-endian u16 fields, the first u8, then the
    checksum of the thirteen bytes before in the place of the second u8,
    and the third u8 (the tail marker) last. *)
Definition wire_image (cmd f1 f2 f3 f4 f5 f6 b1 tail : Z) : list Z :=
  let covered :=
    [Z.land f1 255; Z.shiftr f1 8; Z.land f2 255; Z.shiftr f2 8;
     Z.land f3 255; Z.shiftr f3 8; Z.land f4 255; Z.shiftr f4 8;
     Z.land f5 255; Z.shiftr f5 8; Z.land f6 255; Z.shiftr f6 8; b1] in
  cmd :: covered ++ [Z.land (foldr Z.lxor 0 covered) 0xFF; tail].

(** A frame of the wire format with a correct checksum. *)
Definition frame_ok (frame : list Z) : Prop :=
  length frame = 16%nat
  ∧ nth 14 frame 0 = Z.land (Spec.xor_range 1 13 frame) 0xFF.

(** A call that raised without publishing, or published one good frame. *)
Definition sends_at_most_one (m : M unit) (s : TechlifeLED) : Prop :=
  (∃ e, m s = (Raise e, s))
  ∨ (∃ payload, m s = (Return tt, publish payload s) ∧ frame_ok payload).


(** ** Further vocabulary for the frames and the levels *)

(** A value that fits a byte of a [bytes] object. *)
Definition byte_ok (v : Z) : Prop := 0 ≤ v ≤ 255.

(** The command byte, the flag byte at offset 13 and the tail marker
    that a call passes to [_FRAME.pack]; [set_animation_speed] packs
    nothing. *)
Definition markers {ColorLike : Type} (c : call ColorLike) : option (Z * Z * Z) :=
  match c with
  | On | Off => Some (_CMD_POWER, 0, _TAIL_POWER)
  | SetColor _ | SetBrightness _ | Animate false =>
      Some (_CMD_SET_STATIC, _FLAG_SET_STATIC, _TAIL_SET_STATIC)
  | Animate true => Some (_CMD_ANIMATE, 0, _TAIL_ANIMATE)
  | Update => Some (_CMD_UPDATE, 0, _TAIL_UPDATE)
  | SetAnimationSpeed _ => None
  end.

(** The level of a channel at a stored percentage, as a number. *)
Definition level_value (p x : Z) : Z :=
  match level (fraction_of_percent p) x with
  | Return v => v
  | Raise _ => -1
  end.

(** The percentages at which the double arithmetic of [level] loses one
    unit for some channel. *)
Definition inexact_percents : list Z := [29; 41; 57; 58; 69; 82].


(** One step up in the channel or in the percentage does not lower the
    level, and away from [inexact_percents] the level is the value of the
    formula over the rationals. *)
Definition check_step (p x : Z) : bool :=
  let v := level_value p x in
  (v <=? level_value p (x + 1))
  && (v <=? level_value (p + 1) x)
  && (existsb (Z.eqb p) inexact_percents || (v =? Spec.channel_exact x p)).

Definition check_step_row (p : Z) : bool := forallb (check_step p) (below 256).

(** ** Sequences of calls *)

Section Sequences.

Context {ColorLike : Type} (Color : ColorLike → ColorResult).

(** A caller makes the calls one after the other on the same object and
    goes on after an exception. *)
Fixpoint run_all (cs : list (call ColorLike)) (s : TechlifeLED) : TechlifeLED :=
  match cs with
  | [] => s
  | c :: cs' => run_all cs' (snd (run Color c s))
  end.

(** The last writer of each attribute in a sequence of calls, starting
    from the value at hand. *)
Definition power_after (cs : list (call ColorLike)) (start : bool) : bool :=
  foldl (fun acc c =>
           match c with
           | On | Update => true
           | Off => false
           | _ => acc
           end) start cs.

Definition percent_after (cs : list (call ColorLike)) (start : Z) : Z :=
  foldl (fun acc c =>
           match c with
           | SetBrightness value => Spec.clamp 0 100 value
           | _ => acc
           end) start cs.

Definition speed_after (cs : list (call ColorLike)) (start : Z) : Z :=
  foldl (fun acc c =>
           match c with
           | SetAnimationSpeed speed => Spec.clamp 1 100 speed
           | _ => acc
           end) start cs.

Definition color_after (cs : list (call ColorLike)) (start : Z * Z * Z) : Z * Z * Z :=
  foldl (fun acc c =>
           match c with
           | SetColor color =>
               match Color color with
               | Rgb r g b => (r, g, b)
               | _ => acc
               end
           | _ => acc
           end) start cs.

End Sequences.

(** * Properties *)

(** ** The exhaustive checks, as lemmas *)

Lemma check_rows : forallb check_row percents = true.
Proof. vm_compute. reflexivity. Qed.

Lemma In_below (n : nat) (z : Z) : 0 ≤ z < Z.of_nat n → In z (below n).
Proof.
  intros Hz. unfold below. apply in_map_iff.
  exists (Z.to_nat z). split; [lia|]. apply in_seq. lia.
Qed.

Lemma forallb_below (f : Z → bool) (n : nat) :
  ∀ l, l = below n → forallb f l = true → ∀ z, 0 ≤ z < Z.of_nat n → f z = true.
Proof.
  intros l -> H z Hz. rewrite forallb_forall in H. apply H, In_below, Hz.
Qed.

Lemma row_checked (p : Z) : 0 ≤ p ≤ 100 → check_row p = true.
Proof.
  intros Hp. apply (forallb_below check_row 101 percents eq_refl check_rows). lia.
Qed.

Lemma percent_checked (p : Z) : 0 ≤ p ≤ 100 → check_percent p = true.
Proof.
  intros Hp. pose proof (row_checked p Hp) as H. unfold check_row in H.
  apply andb_true_iff in H. exact (proj1 H).
Qed.

Lemma level_checked (p x : Z) :
  0 ≤ p ≤ 100 → channel_ok x → check_level p x = true.
Proof.
  intros Hp Hx. pose proof (row_checked p Hp) as H. unfold check_row in H.
  apply andb_true_iff in H. destruct H as [_ H].
  apply (forallb_below _ 256 _ eq_refl H). unfold channel_ok in Hx. lia.
Qed.

Lemma returns_eq (r : result Z) (v : Z) : returns r v = true → r = Return v.
Proof.
  destruct r as [a|e]; simpl; [|discriminate].
  intros H. apply Z.eqb_eq in H. now subst.
Qed.

Lemma of_int_percent (p : Z) :
  0 ≤ p ≤ 100 → PyFloat.of_int p = Return (PyFloat.of_Z p).
Proof.
  intros Hp. pose proof (percent_checked p Hp) as H. unfold check_percent in H.
  repeat (apply andb_prop in H; destruct H as [H ?]).
  unfold PyFloat.of_int. now rewrite H.
Qed.

Lemma truediv_percent (p : Z) :
  PyFloat.truediv (PyFloat.of_Z p) (PyFloat.of_Z 100) = Return (fraction_of_percent p).
Proof. reflexivity. Qed.

Lemma brightness_0_100_percent (p : Z) :
  0 ≤ p ≤ 100 → brightness_0_100 (fraction_of_percent p) = Return p.
Proof.
  intros Hp. pose proof (percent_checked p Hp) as H. unfold check_percent in H.
  repeat (apply andb_prop in H; destruct H as [H ?]).
  now apply returns_eq.
Qed.

Lemma get_brightness_percent (s : TechlifeLED) (p : Z) :
  0 ≤ p ≤ 100 → _brightness s = fraction_of_percent p → get_brightness s = Return p.
Proof.
  intros Hp Hb. pose proof (percent_checked p Hp) as H. unfold check_percent in H.
  repeat (apply andb_prop in H; destruct H as [H ?]).
  unfold get_brightness. rewrite Hb. now apply returns_eq.
Qed.

(** What [level] returns on a stored fraction and a colour channel. *)
Lemma level_percent (p x : Z) :
  0 ≤ p ≤ 100 → channel_ok x →
  ∃ v, level (fraction_of_percent p) x = Return v
       ∧ 0 ≤ v ≤ 10000
       ∧ (v = Spec.channel_exact x p ∨ v = Spec.channel_exact x p - 1).
Proof.
  intros Hp Hx. pose proof (level_checked p x Hp Hx) as H. unfold check_level in H.
  destruct (level (fraction_of_percent p) x) as [v|e]; [|discriminate].
  repeat (apply andb_prop in H; destruct H as [H ?]).
  exists v. split; [reflexivity|]. split; [lia|].
  match goal with Hor : (_ || _)%bool = true |- _ => apply orb_prop in Hor; lia end.
Qed.

(** The double arithmetic does round: at full red and 41 percent the
    product 2550000 * 0.41 falls just below 1045500, and the channel is
    one less than the value of the formula over the rationals. *)
Lemma level_255_41 :
  level (fraction_of_percent 41) 255 = Return 4099
  ∧ Spec.channel_exact 255 41 = 4100.
Proof. split; vm_compute; reflexivity. Qed.

(** ** Frames: packing and the checksum *)

Lemma u16_recompose (v : Z) : Z.land v 255 + 256 * Z.shiftr v 8 = v.
Proof.
  change 255 with (Z.ones 8). rewrite Z.land_ones by lia.
  rewrite Z.shiftr_div_pow2 by lia. change (2 ^ 8) with 256.
  pose proof (Z.div_mod v 256). lia.
Qed.

Lemma pack_FRAME (cmd f1 f2 f3 f4 f5 f6 b1 b2 tail : Z) :
  0 ≤ cmd ≤ 255 → 0 ≤ f1 ≤ 65535 → 0 ≤ f2 ≤ 65535 → 0 ≤ f3 ≤ 65535 →
  0 ≤ f4 ≤ 65535 → 0 ≤ f5 ≤ 65535 → 0 ≤ f6 ≤ 65535 →
  0 ≤ b1 ≤ 255 → 0 ≤ b2 ≤ 255 → 0 ≤ tail ≤ 255 →
  Struct.pack _FRAME [cmd; f1; f2; f3; f4; f5; f6; b1; b2; tail]
  = Return [cmd; Z.land f1 255; Z.shiftr f1 8; Z.land f2 255; Z.shiftr f2 8;
            Z.land f3 255; Z.shiftr f3 8; Z.land f4 255; Z.shiftr f4 8;
            Z.land f5 255; Z.shiftr f5 8; Z.land f6 255; Z.shiftr f6 8;
            b1; b2; tail].
Proof.
  intros. unfold _FRAME. cbn -[Z.land Z.shiftr Z.leb].
  repeat match goal with
  | |- context [(0 <=? ?v) && (?v <=? ?m)] =>
      replace ((0 <=? v) && (v <=? m)) with true
        by (symmetry; apply andb_true_iff; split; apply Z.leb_le; lia)
  end.
  reflexivity.
Qed.

Lemma pack_length (fmt : list Struct.code) (args frame : list Z) :
  Struct.pack fmt args = Return frame → length frame = Struct.size fmt.
Proof.
  revert args frame. induction fmt as [|c fmt IH]; intros [|v args] frame; simpl;
    try discriminate.
  - intros [= <-]. reflexivity.
  - destruct (Struct.pack1 c v) as [b|e] eqn:Hb; simpl; [|discriminate].
    destruct (Struct.pack fmt args) as [rest|e] eqn:Hrest; simpl; [|discriminate].
    intros [= <-]. rewrite length_app, (IH _ _ Hrest). f_equal.
    destruct c; simpl in Hb;
      match type of Hb with (if ?c then _ else _) = _ => destruct c end;
      inversion Hb; reflexivity.
Qed.

Lemma reduce_xor_slice (frame : list Z) :
  (14 ≤ length frame)%nat →
  reduce Z.lxor (slice 1 14 frame) = Return (Spec.xor_range 1 13 frame).
Proof.
  intros Hlen.
  do 14 (destruct frame as [|? frame]; [simpl in Hlen; lia|]).
  unfold slice, reduce, Spec.xor_range. simpl.
  f_equal. rewrite Z.lxor_0_r. rewrite !Z.lxor_assoc. reflexivity.
Qed.

Lemma insert_checksum_eq (frame : list Z) :
  (15 ≤ length frame)%nat →
  _insert_checksum frame
  = Return (<[14%nat := Z.land (Spec.xor_range 1 13 frame) 0xFF]> frame).
Proof.
  intros Hlen. unfold _insert_checksum.
  rewrite reduce_xor_slice by lia. simpl.
  destruct (decide (14 < length frame)%nat); [reflexivity|lia].
Qed.

Lemma insert_checksum_short (frame : list Z) :
  (length frame < 15)%nat → ∃ e, _insert_checksum frame = Raise e.
Proof.
  intros Hlen. unfold _insert_checksum.
  destruct (reduce Z.lxor (slice 1 14 frame)) as [x|e]; simpl; [|eauto].
  destruct (decide (14 < length frame)%nat); [lia|eauto].
Qed.

Lemma xor_range_insert_14 (frame : list Z) (t : Z) :
  Spec.xor_range 1 13 (<[14%nat := t]> frame) = Spec.xor_range 1 13 frame.
Proof.
  unfold Spec.xor_range. f_equal. apply map_ext_in. intros i Hi.
  apply in_seq in Hi. rewrite !nth_lookup.
  rewrite list_lookup_insert_ne by lia. reflexivity.
Qed.

Lemma send_eq (frame : list Z) (s : TechlifeLED) :
  (15 ≤ length frame)%nat →
  _send_with_checksum frame s
  = (Return tt, publish (<[14%nat := Z.land (Spec.xor_range 1 13 frame) 0xFF]> frame) s).
Proof.
  intros Hlen. unfold _send_with_checksum, mbind, M_bind, lift.
  rewrite insert_checksum_eq by exact Hlen. reflexivity.
Qed.


Lemma inserted_checksum_ok (frame : list Z) :
  length frame = 16%nat →
  frame_ok (<[14%nat := Z.land (Spec.xor_range 1 13 frame) 0xFF]> frame).
Proof.
  intros Hlen. split.
  - now rewrite length_insert.
  - rewrite xor_range_insert_14, nth_lookup.
    rewrite list_lookup_insert_eq by lia. reflexivity.
Qed.

(** Packing with [_FRAME] and sending: the only way to fail is a pack
    argument out of range. *)
Lemma pack_send_cases (args : list Z) (s : TechlifeLED) :
  sends_at_most_one
    (frame ← lift (Struct.pack _FRAME args); _send_with_checksum frame) s.
Proof.
  unfold sends_at_most_one, mbind, M_bind, lift.
  destruct (Struct.pack _FRAME args) as [frame|e] eqn:Hpack.
  - right. apply pack_length in Hpack. change (Struct.size _FRAME) with 16%nat in Hpack.
    eexists. rewrite send_eq by lia. split; [reflexivity|].
    now apply inserted_checksum_ok.
  - left. eauto.
Qed.

Lemma pack_send_eq (cmd f1 f2 f3 f4 f5 f6 b1 b2 tail : Z) (s : TechlifeLED) :
  0 ≤ cmd ≤ 255 → 0 ≤ f1 ≤ 65535 → 0 ≤ f2 ≤ 65535 → 0 ≤ f3 ≤ 65535 →
  0 ≤ f4 ≤ 65535 → 0 ≤ f5 ≤ 65535 → 0 ≤ f6 ≤ 65535 →
  0 ≤ b1 ≤ 255 → 0 ≤ b2 ≤ 255 → 0 ≤ tail ≤ 255 →
  (frame ← lift (Struct.pack _FRAME [cmd; f1; f2; f3; f4; f5; f6; b1; b2; tail]);
   _send_with_checksum frame) s
  = (Return tt, publish (wire_image cmd f1 f2 f3 f4 f5 f6 b1 tail) s).
Proof.
  intros. unfold mbind, M_bind, lift. rewrite pack_FRAME by assumption.
  rewrite send_eq by (simpl; lia). reflexivity.
Qed.

Lemma wire_image_ok (cmd f1 f2 f3 f4 f5 f6 b1 tail : Z) :
  frame_ok (wire_image cmd f1 f2 f3 f4 f5 f6 b1 tail).
Proof. split; reflexivity. Qed.

Lemma wire_image_fields (cmd f1 f2 f3 f4 f5 f6 b1 tail : Z) :
  let w := wire_image cmd f1 f2 f3 f4 f5 f6 b1 tail in
  nth 0 w 0 = cmd
  ∧ Spec.u16_field 1 w = f1 ∧ Spec.u16_field 2 w = f2 ∧ Spec.u16_field 3 w = f3
  ∧ Spec.u16_field 4 w = f4 ∧ Spec.u16_field 5 w = f5 ∧ Spec.u16_field 6 w = f6
  ∧ nth 13 w 0 = b1 ∧ nth 15 w 0 = tail.
Proof.
  unfold Spec.u16_field; cbn -[Z.land Z.shiftr Z.mul Z.add].
  rewrite !u16_recompose. repeat split.
Qed.

(** ** The methods, call by call *)

Lemma on_eq (s : TechlifeLED) :
  on s = (Return tt,
          with_on true (publish (wire_image 0xFA 0x23 0 0 0 0 0 0 0xFB) s)).
Proof. reflexivity. Qed.

Lemma off_eq (s : TechlifeLED) :
  off s = (Return tt,
           with_on false (publish (wire_image 0xFA 0x24 0 0 0 0 0 0 0xFB) s)).
Proof. reflexivity. Qed.

Lemma update_eq (s : TechlifeLED) :
  update s = (Return tt,
              with_on true (publish (wire_image 0xA9 0xF0 0 0 0 0 0 0 0x9A) s)).
Proof. reflexivity. Qed.

Lemma set_animation_speed_eq (speed : Z) (s : TechlifeLED) :
  set_animation_speed speed s
  = (Return tt, with_animation_speed (Z.max 1 (Z.min 100 speed)) s).
Proof. reflexivity. Qed.

Lemma animate_true_eq (s : TechlifeLED) :
  1 ≤ _animation_speed s ≤ 100 →
  animate true s
  = (Return tt,
     publish (wire_image 0x66 0x25 ((100 - _animation_speed s) * 255 / 100)
                         0x64 0 0 0 0 0x99) s).
Proof.
  intros Hs. unfold animate, mbind at 1, M_bind at 1, read.
  apply pack_send_eq; unfold _CMD_ANIMATE, _SUBMODE_ANIMATE, _TAIL_ANIMATE; try lia.
  pose proof (Z.div_pos ((100 - _animation_speed s) * 255) 100).
  pose proof (Z.div_le_upper_bound ((100 - _animation_speed s) * 255) 100 65535).
  lia.
Qed.

Lemma animate_true_cases (s : TechlifeLED) : sends_at_most_one (animate true) s.
Proof.
  unfold animate, mbind at 1, M_bind at 1, read. apply pack_send_cases.
Qed.

Lemma bind_read {A B : Type} (f : TechlifeLED → A) (k : A → M B) (s : TechlifeLED) :
  (x ← read f; k x) s = k (f s) s.
Proof. reflexivity. Qed.

Lemma bind_lift {A B : Type} (r : result A) (k : A → M B) (s : TechlifeLED) :
  (x ← lift r; k x) s
  = match r with Return a => k a s | Raise e => (Raise e, s) end.
Proof. destruct r; reflexivity. Qed.

Lemma bind_assign {B : Type} (f : TechlifeLED → TechlifeLED) (k : M B) (s : TechlifeLED) :
  (assign f;; k) s = k (f s).
Proof. reflexivity. Qed.

Lemma apply_static_cases (s : TechlifeLED) : sends_at_most_one _apply_static s.
Proof.
  unfold _apply_static. unfold sends_at_most_one. rewrite bind_read.
  destruct (_color s) as [[r g] b]. rewrite bind_read.
  rewrite bind_lift. destruct (level (_brightness s) r) as [red|e]; [|eauto].
  rewrite bind_lift. destruct (level (_brightness s) g) as [green|e]; [|eauto].
  rewrite bind_lift. destruct (level (_brightness s) b) as [blue|e]; [|eauto].
  rewrite bind_lift. destruct (brightness_0_100 (_brightness s)) as [pct|e]; [|eauto].
  apply pack_send_cases.
Qed.

Lemma apply_static_eq (s : TechlifeLED) (r g b red green blue pct : Z) :
  _color s = (r, g, b) →
  level (_brightness s) r = Return red →
  level (_brightness s) g = Return green →
  level (_brightness s) b = Return blue →
  brightness_0_100 (_brightness s) = Return pct →
  0 ≤ red ≤ 65535 → 0 ≤ green ≤ 65535 → 0 ≤ blue ≤ 65535 → 0 ≤ pct ≤ 65535 →
  _apply_static s
  = (Return tt, publish (wire_image 0x28 red green blue 0 0 pct 0x0F 0x29) s).
Proof.
  intros Hc Hr Hg Hb Hp ? ? ? ?. unfold _apply_static.
  rewrite bind_read, Hc, bind_read.
  rewrite bind_lift, Hr, bind_lift, Hg, bind_lift, Hb, bind_lift, Hp.
  apply pack_send_eq;
    unfold _CMD_SET_STATIC, _FLAG_SET_STATIC, _TAIL_SET_STATIC; lia.
Qed.

(** On a well-formed object [_apply_static] returns, and publishes the
    frame of the three levels and the percentage. *)
Lemma apply_static_wf (s : TechlifeLED) (p r g b : Z) :
  _color s = (r, g, b) → channel_ok r → channel_ok g → channel_ok b →
  0 ≤ p ≤ 100 → _brightness s = fraction_of_percent p →
  ∃ red green blue,
    level (_brightness s) r = Return red
    ∧ level (_brightness s) g = Return green
    ∧ level (_brightness s) b = Return blue
    ∧ 0 ≤ red ≤ 10000 ∧ 0 ≤ green ≤ 10000 ∧ 0 ≤ blue ≤ 10000
    ∧ _apply_static s
      = (Return tt, publish (wire_image 0x28 red green blue 0 0 p 0x0F 0x29) s).
Proof.
  intros Hc Hr Hg Hb Hp Hbr.
  destruct (level_percent p r Hp Hr) as (red & Hred & ? & _).
  destruct (level_percent p g Hp Hg) as (green & Hgreen & ? & _).
  destruct (level_percent p b Hp Hb) as (blue & Hblue & ? & _).
  rewrite <- Hbr in Hred, Hgreen, Hblue.
  exists red, green, blue. repeat (split; [assumption|]).
  apply (apply_static_eq s r g b); try assumption; try lia.
  rewrite Hbr. now apply brightness_0_100_percent.
Qed.

Lemma set_brightness_eq (value : Z) (s : TechlifeLED) :
  set_brightness value s
  = _apply_static
      (with_brightness (fraction_of_percent (Z.max 0 (Z.min 100 value))) s).
Proof.
  unfold set_brightness. rewrite bind_lift, of_int_percent by lia.
  rewrite bind_lift, (of_int_percent 100) by lia.
  rewrite bind_lift, truediv_percent. apply bind_assign.
Qed.

Lemma set_color_eq {ColorLike : Type} (Color : ColorLike → ColorResult)
      (color : ColorLike) (s : TechlifeLED) :
  set_color Color color s
  = match Color color with
    | Rgb r g b => _apply_static (with_color (r, g, b) s)
    | ValidationError => (Raise InvalidColor, s)
    | OtherError => (Raise ForeignError, s)
    end.
Proof. unfold set_color. destruct (Color color); reflexivity. Qed.

(** ** What a call leaves behind *)

Lemma sends_client (m : M unit) (s : TechlifeLED) :
  sends_at_most_one m s →
  ∃ new, client (snd (m s)) = client s ++ new
         ∧ Forall frame_ok new ∧ (length new ≤ 1)%nat.
Proof.
  intros [[e ->]|(payload & -> & Hok)].
  - exists []. simpl. rewrite app_nil_r. auto.
  - exists [payload]. simpl. auto.
Qed.

Lemma sends_attributes (m : M unit) (s : TechlifeLED) :
  sends_at_most_one m s →
  _on (snd (m s)) = _on s
  ∧ _brightness (snd (m s)) = _brightness s
  ∧ _color (snd (m s)) = _color s
  ∧ _animation_speed (snd (m s)) = _animation_speed s.
Proof. intros [[e ->]|(payload & -> & Hok)]; auto. Qed.

Lemma wf_attributes (s s' : TechlifeLED) :
  wf s → _brightness s' = _brightness s → _color s' = _color s →
  _animation_speed s' = _animation_speed s → wf s'.
Proof.
  intros [Hc Hb Hs] Eb Ec Es. split.
  - unfold color_ok in *. now rewrite Ec.
  - now rewrite Eb.
  - now rewrite Es.
Qed.

Lemma wf_init : wf init.
Proof.
  split.
  - unfold color_ok, channel_ok. simpl. lia.
  - exists 100. split; [lia|reflexivity].
  - simpl. lia.
Qed.

Lemma wf_apply_static (s : TechlifeLED) :
  wf s →
  ∃ payload, _apply_static s = (Return tt, publish payload s) ∧ frame_ok payload.
Proof.
  intros [Hc (p & Hp & Hb) _]. unfold color_ok in Hc.
  destruct (_color s) as [[r g] b] eqn:Ecol. destruct Hc as (Hr & Hg & Hbl).
  destruct (apply_static_wf s p r g b Ecol Hr Hg Hbl Hp Hb)
    as (red & green & blue & _ & _ & _ & _ & _ & _ & Heq).
  eexists. split; [exact Heq|apply wire_image_ok].
Qed.

Section Reachability.

Context {ColorLike : Type} (Color : ColorLike → ColorResult).

(** Every call publishes at most one frame, and only good ones. *)
Lemma run_sends (c : call ColorLike) (s : TechlifeLED) :
  ∃ new, client (snd (run Color c s)) = client s ++ new
         ∧ Forall frame_ok new ∧ (length new ≤ 1)%nat.
Proof.
  destruct c as [| |color|value|speed|[|]|]; cbn [run].
  - rewrite on_eq. eexists [_]. simpl. repeat split; auto using wire_image_ok.
  - rewrite off_eq. eexists [_]. simpl. repeat split; auto using wire_image_ok.
  - rewrite set_color_eq. destruct (Color color) as [r g b| |].
    + apply (sends_client _apply_static (with_color (r, g, b) s)), apply_static_cases.
    + exists []. simpl. rewrite app_nil_r. auto.
    + exists []. simpl. rewrite app_nil_r. auto.
  - rewrite set_brightness_eq.
    apply (sends_client _apply_static (with_brightness _ s)), apply_static_cases.
  - exists []. simpl. rewrite app_nil_r. auto.
  - apply sends_client, animate_true_cases.
  - apply sends_client, apply_static_cases.
  - rewrite update_eq. eexists [_]. simpl. repeat split; auto using wire_image_ok.
Qed.

Lemma reachable_frames_ok (s : TechlifeLED) :
  reachable Color s → Forall frame_ok (client s).
Proof.
  induction 1 as [|c s Hs IH]; [constructor|].
  destruct (run_sends c s) as (new & -> & Hnew & _).
  apply Forall_app. auto.
Qed.

(** The power flag after a call. *)
Lemma run_on (c : call ColorLike) (s : TechlifeLED) :
  _on (snd (run Color c s))
  = match c with
    | On | Update => true
    | Off => false
    | _ => _on s
    end.
Proof.
  destruct c as [| |color|value|speed|[|]|]; cbn [run]; try reflexivity.
  - rewrite set_color_eq. destruct (Color color) as [r g b| |]; try reflexivity.
    apply (sends_attributes _apply_static (with_color (r, g, b) s)), apply_static_cases.
  - rewrite set_brightness_eq.
    apply (sends_attributes _apply_static (with_brightness _ s)), apply_static_cases.
  - apply sends_attributes, animate_true_cases.
  - apply sends_attributes, apply_static_cases.
Qed.

(** The colour library hands out channels: [as_rgb_tuple] returns three
    integers from 0 to 255. *)
Hypothesis Color_range :
  ∀ color r g b, Color color = Rgb r g b →
                 channel_ok r ∧ channel_ok g ∧ channel_ok b.

(** On a well-formed object a call returns, unless it is [set_color]
    with an argument that the colour library refuses; the object stays
    well formed either way. *)
Lemma run_wf (c : call ColorLike) (s : TechlifeLED) :
  wf s →
  wf (snd (run Color c s))
  ∧ (fst (run Color c s) = Return tt
     ∨ ∃ color, c = SetColor color
                ∧ ((Color color = ValidationError
                    ∧ run Color c s = (Raise InvalidColor, s))
                   ∨ (Color color = OtherError
                      ∧ run Color c s = (Raise ForeignError, s)))).
Proof.
  intros Hwf. destruct c as [| |color|value|speed|[|]|]; cbn [run].
  - rewrite on_eq. split; [|now left]. now apply (wf_attributes s).
  - rewrite off_eq. split; [|now left]. now apply (wf_attributes s).
  - rewrite set_color_eq. destruct (Color color) as [r g b| |] eqn:Ecol.
    + assert (Hwf' : wf (with_color (r, g, b) s)).
      { destruct Hwf as [_ Hb Hs]. split; [|exact Hb|exact Hs].
        apply (Color_range color), Ecol. }
      destruct (wf_apply_static _ Hwf') as (payload & -> & _).
      split; [|now left]. cbn [snd].
      apply (wf_attributes _ _ Hwf'); reflexivity.
    + split; [exact Hwf|]. right. exists color. split; [reflexivity|]. now left.
    + split; [exact Hwf|]. right. exists color. split; [reflexivity|]. now right.
  - rewrite set_brightness_eq.
    assert (Hwf' : wf (with_brightness
                         (fraction_of_percent (Z.max 0 (Z.min 100 value))) s)).
    { destruct Hwf as [Hc _ Hs]. split; [exact Hc| |exact Hs].
      exists (Z.max 0 (Z.min 100 value)). split; [lia|reflexivity]. }
    destruct (wf_apply_static _ Hwf') as (payload & -> & _).
    split; [|now left]. cbn [snd].
    apply (wf_attributes _ _ Hwf'); reflexivity.
  - split; [|now left]. destruct Hwf as [Hc Hb _]. split; [exact Hc|exact Hb|].
    simpl. lia.
  - rewrite animate_true_eq by apply Hwf. split; [|now left].
    now apply (wf_attributes s).
  - unfold animate. destruct (wf_apply_static _ Hwf) as (payload & -> & _).
    split; [|now left]. now apply (wf_attributes s).
  - rewrite update_eq. split; [|now left]. now apply (wf_attributes s).
Qed.

Lemma reachable_wf (s : TechlifeLED) : reachable Color s → wf s.
Proof.
  induction 1 as [|c s Hs IH]; [apply wf_init|]. now apply run_wf.
Qed.

End Reachability.

(** ** The sample colour library keeps the channel range *)

Lemma sample_Color_range (color : SampleColorLike) (r g b : Z) :
  sample_Color color = Rgb r g b → channel_ok r ∧ channel_ok g ∧ channel_ok b.
Proof.
  destruct color as [r' g' b'|r' g' b'|]; simpl; [| |discriminate].
  - destruct ((0 <=? r') && (r' <=? 255) && (0 <=? g') && (g' <=? 255)
              && (0 <=? b') && (b' <=? 255)) eqn:E; [|discriminate].
    intros [= <- <- <-]. unfold channel_ok. lia.
  - intros [= <- <- <-]. unfold channel_ok.
    pose proof (Byte.to_nat_bounded r'). pose proof (Byte.to_nat_bounded g').
    pose proof (Byte.to_nat_bounded b'). lia.
Qed.

Section Totality.

Context {ColorLike : Type} (Color : ColorLike → ColorResult).

Hypothesis Color_range :
  ∀ color r g b, Color color = Rgb r g b →
                 channel_ok r ∧ channel_ok g ∧ channel_ok b.

(** A call other than [set_animation_speed] that returns on a
    well-formed object has published exactly one frame. *)
Lemma run_wf_sends (c : call ColorLike) (s : TechlifeLED) :
  wf s → fst (run Color c s) = Return tt → (∀ v, c ≠ SetAnimationSpeed v) →
  ∃ payload, client (snd (run Color c s)) = client s ++ [payload]
             ∧ frame_ok payload.
Proof.
  intros Hwf Hret Hc. destruct c as [| |color|value|speed|[|]|]; cbn [run] in *.
  - rewrite on_eq. eexists. split; [reflexivity|apply wire_image_ok].
  - rewrite off_eq. eexists. split; [reflexivity|apply wire_image_ok].
  - rewrite set_color_eq in *. destruct (Color color) as [r g b| |] eqn:Ecol;
      try discriminate.
    assert (Hwf' : wf (with_color (r, g, b) s)).
    { destruct Hwf as [_ Hb Hs]. split; [|exact Hb|exact Hs].
      apply (Color_range color), Ecol. }
    destruct (wf_apply_static _ Hwf') as (payload & -> & Hok). eauto.
  - rewrite set_brightness_eq in *.
    assert (Hwf' : wf (with_brightness
                         (fraction_of_percent (Z.max 0 (Z.min 100 value))) s)).
    { destruct Hwf as [Hc' _ Hs]. split; [exact Hc'| |exact Hs].
      exists (Z.max 0 (Z.min 100 value)). split; [lia|reflexivity]. }
    destruct (wf_apply_static _ Hwf') as (payload & -> & Hok). eauto.
  - now destruct (Hc speed).
  - rewrite animate_true_eq by apply Hwf. eexists. split; [reflexivity|apply wire_image_ok].
  - unfold animate. destruct (wf_apply_static _ Hwf) as (payload & -> & Hok). eauto.
  - rewrite update_eq. eexists. split; [reflexivity|apply wire_image_ok].
Qed.

End Totality.

(** [_apply_static] looks at the colour and the brightness only. *)
Lemma apply_static_reads (s : TechlifeLED) :
  ∃ r : result (list Z),
    ∀ s', _color s' = _color s → _brightness s' = _brightness s →
          _apply_static s'
          = match r with
            | Return payload => (Return tt, publish payload s')
            | Raise e => (Raise e, s')
            end.
Proof.
  assert (Hsend : ∀ args, ∃ r : result (list Z), ∀ s',
    (frame ← lift (Struct.pack _FRAME args); _send_with_checksum frame) s'
    = match r with
      | Return payload => (Return tt, publish payload s')
      | Raise e => (Raise e, s')
      end).
  { intros args. unfold mbind, M_bind, lift.
    destruct (Struct.pack _FRAME args) as [frame|e] eqn:Hpack.
    - apply pack_length in Hpack. change (Struct.size _FRAME) with 16%nat in Hpack.
      eexists (Return _). intros s'. rewrite send_eq by lia. reflexivity.
    - exists (Raise e). reflexivity. }
  destruct (_color s) as [[r g] b] eqn:Ecol.
  destruct (level (_brightness s) r) as [red|e] eqn:Hr.
  2:{ exists (Raise e). intros s' Hc Hb. unfold _apply_static.
      rewrite bind_read, Hc, bind_read, bind_lift, Hb, Hr. reflexivity. }
  destruct (level (_brightness s) g) as [green|e] eqn:Hg.
  2:{ exists (Raise e). intros s' Hc Hb. unfold _apply_static.
      rewrite bind_read, Hc, bind_read, bind_lift, Hb, Hr, bind_lift, Hg.
      reflexivity. }
  destruct (level (_brightness s) b) as [blue|e] eqn:Hbl.
  2:{ exists (Raise e). intros s' Hc Hb. unfold _apply_static.
      rewrite bind_read, Hc, bind_read, bind_lift, Hb, Hr, bind_lift, Hg,
        bind_lift, Hbl. reflexivity. }
  destruct (brightness_0_100 (_brightness s)) as [pct|e] eqn:Hp.
  2:{ exists (Raise e). intros s' Hc Hb. unfold _apply_static.
      rewrite bind_read, Hc, bind_read, bind_lift, Hb, Hr, bind_lift, Hg,
        bind_lift, Hbl, bind_lift, Hp. reflexivity. }
  destruct (Hsend [_CMD_SET_STATIC; red; green; blue; 0; 0; pct;
                   _FLAG_SET_STATIC; 0; _TAIL_SET_STATIC]) as [res Hres].
  exists res. intros s' Hc Hb. unfold _apply_static.
  rewrite bind_read, Hc, bind_read, bind_lift, Hb, Hr, bind_lift, Hg,
    bind_lift, Hbl, bind_lift, Hp. apply Hres.
Qed.

Lemma apply_static_speed (v : Z) (s : TechlifeLED) :
  _apply_static (with_animation_speed v s)
  = (fst (_apply_static s), with_animation_speed v (snd (_apply_static s))).
Proof.
  destruct (apply_static_reads s) as [r Hr].
  rewrite (Hr (with_animation_speed v s)), (Hr s) by reflexivity.
  destruct r; reflexivity.
Qed.

Lemma clamp_max_min (lo hi v : Z) :
  lo ≤ hi → Z.max lo (Z.min hi v) = Spec.clamp lo hi v.
Proof.
  intros H. unfold Spec.clamp.
  destruct (v <? lo) eqn:E1; [apply Z.ltb_lt in E1; lia|].
  apply Z.ltb_ge in E1.
  destruct (hi <? v) eqn:E2; [apply Z.ltb_lt in E2; lia|].
  apply Z.ltb_ge in E2. lia.
Qed.

(** * The claims *)

(** C1 (checksum correctness).  [_insert_checksum] accepts every frame of
    at least fifteen bytes and returns it with the byte at offset 14
    replaced by the XOR of the bytes at offsets 1 through 13, masked to
    eight bits; every other byte, 0 through 13 among them, and the length
    are unchanged, and the result is the same whatever byte assembly left
    at offset 14.  Hence in every frame that a reachable controller has
    published, the byte at offset 14 is the masked XOR of the bytes at
    offsets 1 through 13. *)
Theorem checksum_correct :
  (∀ frame : list Z, (15 ≤ length frame)%nat →
     ∃ payload,
       _insert_checksum frame = Return payload
       ∧ nth 14 payload 0 = Z.land (Spec.xor_range 1 13 frame) 0xFF
       ∧ (∀ i, i ≠ 14%nat → payload !! i = frame !! i)
       ∧ length payload = length frame
       ∧ ∀ t, _insert_checksum (<[14%nat := t]> frame) = Return payload)
  ∧ (∀ (ColorLike : Type) (Color : ColorLike → ColorResult) (s : TechlifeLED),
       reachable Color s →
       ∀ payload, In payload (client s) →
         nth 14 payload 0 = Z.land (Spec.xor_range 1 13 payload) 0xFF).
Proof.
  split.
  - intros frame Hlen. eexists. split; [apply insert_checksum_eq, Hlen|].
    split; [|split; [|split]].
    + rewrite nth_lookup, list_lookup_insert_eq by lia. reflexivity.
    + intros i Hi. apply list_lookup_insert_ne. congruence.
    + apply length_insert.
    + intros t. rewrite insert_checksum_eq by (rewrite length_insert; exact Hlen).
      rewrite xor_range_insert_14, list_insert_insert_eq. reflexivity.
  - intros ColorLike Color s Hs payload Hin.
    pose proof (reachable_frames_ok Color s Hs) as Hall.
    rewrite Forall_forall in Hall. apply list_elem_of_In in Hin.
    apply (Hall payload Hin).
Qed.

Lemma checksum_correct_witness :
  (∃ payload,
      _insert_checksum [0xFA; 0x23; 0; 0; 0; 0; 0; 0; 0; 0; 0; 0; 0; 0; 0; 0xFB]
      = Return payload
      ∧ nth 14 payload 0 = 0x23
      ∧ _insert_checksum [0xFA; 0x23; 0; 0; 0; 0; 0; 0; 0; 0; 0; 0; 0; 0; 0x99; 0xFB]
        = Return payload)
  ∧ nth 14 [0x66; 0x25; 0; 2; 0; 0x64; 0; 0; 0; 0; 0; 0; 0; 0; 0x43; 0x99] 0
    = Z.land (Spec.xor_range 1 13
                [0x66; 0x25; 0; 2; 0; 0x64; 0; 0; 0; 0; 0; 0; 0; 0; 0x43; 0x99]) 0xFF.
Proof.
  split.
  - destruct (proj1 checksum_correct
                [0xFA; 0x23; 0; 0; 0; 0; 0; 0; 0; 0; 0; 0; 0; 0; 0; 0xFB])
      as (payload & Heq & H14 & _ & _ & Hany).
    + simpl. lia.
    + exists payload. split; [exact Heq|]. split; [exact H14|]. exact (Hany 0x99).
  - apply (proj2 checksum_correct SampleColorLike sample_Color
             (snd (run sample_Color (Animate true) init))).
    + apply reachable_call, reachable_init.
    + left. reflexivity.
Defined.

(** C2, as stated, fails: the frame that [on] publishes from a fresh
    controller has sixteen bytes, not fifteen (the format [<B6H3B] packs
    1 + 6 * 2 + 3 bytes). *)
Lemma power_on_frame_not_15_bytes :
  Struct.size _FRAME = 16%nat
  ∧ ∃ payload, client (snd (on init)) = [payload]
               ∧ length payload = 16%nat ∧ length payload ≠ 15%nat.
Proof.
  split; [reflexivity|]. eexists. split; [reflexivity|]. split; [reflexivity|].
  simpl. lia.
Qed.

(** C2 (amended: sixteen bytes).  On every reachable controller every call
    publishes at most one frame, every published frame is exactly sixteen
    bytes long, and a call of [on], [off], [set_color], [set_brightness],
    [animate] or [update] that returns has published exactly one. *)
Theorem frame_length_16 {ColorLike : Type} (Color : ColorLike → ColorResult)
    (Color_range : ∀ color r g b, Color color = Rgb r g b →
                                  channel_ok r ∧ channel_ok g ∧ channel_ok b)
    (c : call ColorLike) (s : TechlifeLED) :
  reachable Color s →
  ∃ new,
    client (snd (run Color c s)) = client s ++ new
    ∧ Forall (fun payload => length payload = 16%nat) new
    ∧ (length new ≤ 1)%nat
    ∧ (fst (run Color c s) = Return tt → (∀ v, c ≠ SetAnimationSpeed v) →
       length new = 1%nat).
Proof.
  intros Hs. destruct (run_sends Color c s) as (new & Hnew & Hok & Hlen).
  exists new. split; [exact Hnew|]. split; [|split; [exact Hlen|]].
  - eapply Forall_impl; [exact Hok|]. intros payload [H _]. exact H.
  - intros Hret Hc.
    destruct (run_wf_sends Color Color_range c s (reachable_wf Color Color_range s Hs)
                Hret Hc) as (payload & Hone & _).
    rewrite Hnew in Hone. apply app_inv_head in Hone. now subst new.
Qed.

Lemma frame_length_16_witness :
  ∃ new,
    client (snd (run sample_Color (SetColor (Hex xff x00 x00)) init)) = client init ++ new
    ∧ Forall (fun payload => length payload = 16%nat) new
    ∧ (length new ≤ 1)%nat
    ∧ (fst (run sample_Color (SetColor (Hex xff x00 x00)) init) = Return tt →
       (∀ v, SetColor (Hex xff x00 x00) ≠ SetAnimationSpeed v) →
       length new = 1%nat).
Proof.
  apply (frame_length_16 sample_Color sample_Color_range).
  apply reachable_init.
Defined.

(** Over the rationals, with the fraction p / 100, the formula
    gives the published channel or one more; the two differ at full red
    and 41 percent. *)
Lemma static_channel_exact_or_one_less (p x v : Z) :
  0 ≤ p ≤ 100 → channel_ok x →
  level (fraction_of_percent p) x = Return v →
  v = Spec.channel_exact x p ∨ v = Spec.channel_exact x p - 1.
Proof.
  intros Hp Hx Hv. destruct (level_percent p x Hp Hx) as (v' & Hv' & _ & H).
  congruence.
Qed.

(** C4 (animation speed).  With a stored speed from 1 to 100,
    [animate(True)] publishes an Animate frame whose second u16 field is
    floor((100 - speed) * 255 / 100); after [set_animation_speed(100)] the
    field is 0, after [set_animation_speed(1)] it is 252. *)
Theorem animate_device_speed :
  (∀ s : TechlifeLED, 1 ≤ _animation_speed s ≤ 100 →
     ∃ payload,
       animate true s = (Return tt, publish payload s)
       ∧ nth 0 payload 0 = 0x66
       ∧ Spec.u16_field 1 payload = 0x25
       ∧ Spec.u16_field 2 payload = Spec.device_speed (_animation_speed s)
       ∧ Spec.u16_field 3 payload = 0x64)
  ∧ (∀ s : TechlifeLED,
       ∃ payload,
         animate true (snd (set_animation_speed 100 s))
         = (Return tt, publish payload (snd (set_animation_speed 100 s)))
         ∧ Spec.u16_field 2 payload = 0)
  ∧ (∀ s : TechlifeLED,
       ∃ payload,
         animate true (snd (set_animation_speed 1 s))
         = (Return tt, publish payload (snd (set_animation_speed 1 s)))
         ∧ Spec.u16_field 2 payload = 252).
Proof.
  split; [|split].
  - intros s Hs. eexists. split; [apply animate_true_eq, Hs|].
    pose proof (wire_image_fields 0x66 0x25 ((100 - _animation_speed s) * 255 / 100)
                  0x64 0 0 0 0 0x99) as H.
    cbv zeta in H. unfold Spec.device_speed. tauto.
  - intros s. eexists. split; [apply animate_true_eq; simpl; lia|]. reflexivity.
  - intros s. eexists. split; [apply animate_true_eq; simpl; lia|]. reflexivity.
Qed.

Lemma animate_device_speed_witness :
  1 ≤ _animation_speed init ≤ 100
  ∧ ∃ payload,
      animate true init = (Return tt, publish payload init)
      ∧ nth 0 payload 0 = 0x66
      ∧ Spec.u16_field 1 payload = 0x25
      ∧ Spec.u16_field 2 payload = Spec.device_speed (_animation_speed init)
      ∧ Spec.u16_field 3 payload = 0x64.
Proof.
  assert (H : 1 ≤ _animation_speed init ≤ 100) by (simpl; lia).
  split; [exact H|]. exact (proj1 animate_device_speed init H).
Defined.

(** C5 (brightness round trip).  For every integer p, [get_brightness]
    right after [set_brightness(p)] returns p clamped into [0, 100]: p
    itself when 0 <= p <= 100, 0 when p < 0, 100 when p > 100; and with
    colour channels in range [set_brightness] returns without raising. *)
Theorem brightness_round_trip (s : TechlifeLED) (p : Z) :
  get_brightness (snd (set_brightness p s)) = Return (Spec.clamp 0 100 p)
  ∧ (0 ≤ p ≤ 100 → get_brightness (snd (set_brightness p s)) = Return p)
  ∧ (p < 0 → get_brightness (snd (set_brightness p s)) = Return 0)
  ∧ (100 < p → get_brightness (snd (set_brightness p s)) = Return 100)
  ∧ (color_ok s → fst (set_brightness p s) = Return tt).
Proof.
  assert (Hget : get_brightness (snd (set_brightness p s))
                 = Return (Spec.clamp 0 100 p)).
  { rewrite set_brightness_eq.
    apply (get_brightness_percent _ (Spec.clamp 0 100 p)).
    - rewrite <- clamp_max_min by lia. lia.
    - rewrite clamp_max_min by lia.
      apply (sends_attributes _apply_static (with_brightness _ s)), apply_static_cases. }
  split; [exact Hget|]. rewrite Hget. unfold Spec.clamp.
  split; [|split; [|split]].
  - intros Hp. destruct (p <? 0) eqn:E1; [apply Z.ltb_lt in E1; lia|].
    destruct (100 <? p) eqn:E2; [apply Z.ltb_lt in E2; lia|]. reflexivity.
  - intros Hp. apply Z.ltb_lt in Hp. now rewrite Hp.
  - intros Hp. destruct (p <? 0) eqn:E1; [apply Z.ltb_lt in E1; lia|].
    apply Z.ltb_lt in Hp. now rewrite Hp.
  - intros Hc. rewrite set_brightness_eq.
    assert (Hwf : wf (with_brightness
                        (fraction_of_percent (Z.max 0 (Z.min 100 p)))
                        (with_animation_speed 1 s))).
    { split; [exact Hc| |simpl; lia].
      exists (Z.max 0 (Z.min 100 p)). split; [lia|reflexivity]. }
    destruct (wf_apply_static _ Hwf) as (payload & Heq & _).
    change (with_brightness (fraction_of_percent (Z.max 0 (Z.min 100 p)))
              (with_animation_speed 1 s))
      with (with_animation_speed 1
              (with_brightness (fraction_of_percent (Z.max 0 (Z.min 100 p))) s))
      in Heq.
    rewrite apply_static_speed in Heq. now injection Heq as ->.
Qed.

Lemma brightness_round_trip_witness :
  get_brightness (snd (set_brightness 37 init)) = Return 37
  ∧ get_brightness (snd (set_brightness (-5) init)) = Return 0
  ∧ get_brightness (snd (set_brightness 250 init)) = Return 100
  ∧ fst (set_brightness 250 init) = Return tt.
Proof.
  split; [|split; [|split]].
  - apply (brightness_round_trip init 37). lia.
  - apply (brightness_round_trip init (-5)). lia.
  - apply (brightness_round_trip init 250). lia.
  - apply (brightness_round_trip init 250). unfold color_ok, channel_ok. simpl. lia.
Defined.

(** C6 (animation speed clamp).  [set_animation_speed] returns, stores its
    argument clamped into [1, 100] (1 for 0, 100 for 150), publishes
    nothing and changes no other attribute; and no call other than
    [animate(True)] depends on the stored speed: its outcome, its frame
    and the other attributes are the same whatever the speed. *)
Theorem set_animation_speed_clamps :
  (∀ (s : TechlifeLED) (speed : Z),
     ∃ s', set_animation_speed speed s = (Return tt, s')
           ∧ _animation_speed s' = Spec.clamp 1 100 speed
           ∧ 1 ≤ _animation_speed s' ≤ 100
           ∧ client s' = client s
           ∧ _on s' = _on s ∧ _color s' = _color s ∧ _brightness s' = _brightness s)
  ∧ (∀ s : TechlifeLED, _animation_speed (snd (set_animation_speed 0 s)) = 1)
  ∧ (∀ s : TechlifeLED, _animation_speed (snd (set_animation_speed 150 s)) = 100)
  ∧ (∀ (ColorLike : Type) (Color : ColorLike → ColorResult)
       (c : call ColorLike) (s : TechlifeLED) (v : Z),
       c ≠ Animate true → (∀ w, c ≠ SetAnimationSpeed w) →
       run Color c (with_animation_speed v s)
       = (fst (run Color c s), with_animation_speed v (snd (run Color c s)))).
Proof.
  split; [|split; [|split]]; try reflexivity.
  - intros s speed. eexists. split; [apply set_animation_speed_eq|].
    cbn [_animation_speed with_animation_speed client _on _color _brightness].
    rewrite clamp_max_min by lia. repeat split; try reflexivity;
      rewrite <- clamp_max_min by lia; lia.
  - intros ColorLike Color c s v Hanim Hspeed.
    destruct c as [| |color|value|speed|[|]|]; cbn [run]; try reflexivity.
    + rewrite !set_color_eq. destruct (Color color) as [r g b| |]; try reflexivity.
      apply (apply_static_speed v (with_color (r, g, b) s)).
    + rewrite !set_brightness_eq. apply (apply_static_speed v (with_brightness _ s)).
    + now destruct (Hspeed speed).
    + now destruct Hanim.
    + apply apply_static_speed.
Qed.

Lemma set_animation_speed_clamps_witness :
  run sample_Color (SetBrightness 50) (with_animation_speed 7 init)
  = (fst (run sample_Color (SetBrightness 50) init),
     with_animation_speed 7 (snd (run sample_Color (SetBrightness 50) init))).
Proof.
  apply (proj2 (proj2 (proj2 set_animation_speed_clamps))).
  - discriminate.
  - discriminate.
Defined.

(** C7 (power independence).  [on] and [update] leave the power flag
    true, [off] leaves it false, and [set_color], [set_brightness],
    [set_animation_speed] and [animate] (with either argument) leave
    [is_on] as it was, whether they return or raise. *)
Theorem power_flag_changes {ColorLike : Type} (Color : ColorLike → ColorResult)
    (s : TechlifeLED) :
  is_on (snd (on s)) = true
  ∧ is_on (snd (off s)) = false
  ∧ is_on (snd (update s)) = true
  ∧ (∀ color, is_on (snd (set_color Color color s)) = is_on s)
  ∧ (∀ value, is_on (snd (set_brightness value s)) = is_on s)
  ∧ (∀ speed, is_on (snd (set_animation_speed speed s)) = is_on s)
  ∧ (∀ enabled, is_on (snd (animate enabled s)) = is_on s).
Proof.
  unfold is_on. repeat split.
  - intros color. apply (run_on Color (SetColor color) s).
  - intros value. apply (run_on Color (SetBrightness value) s).
  - intros enabled. apply (run_on Color (Animate enabled) s).
Qed.

(** C8 (invalid colour), at the input where the code departs from it.
    When the colour library refuses the argument with an error that is
    not a ValidationError, as pydantic's [Color] does for a colour it
    cannot parse, [set_color] does not raise its "Invalid color"
    ValueError: the library's error goes through the [except] clause
    unwrapped.  The object is left as it was and nothing is published.
    On a reachable controller [set_color] raises the "Invalid color"
    ValueError only if the library raised a ValidationError. *)
Theorem set_color_passes_library_error {ColorLike : Type}
    (Color : ColorLike → ColorResult)
    (Color_range : ∀ color r g b, Color color = Rgb r g b →
                                  channel_ok r ∧ channel_ok g ∧ channel_ok b) :
  (∀ (color : ColorLike) (s : TechlifeLED),
     Color color = OtherError →
     set_color Color color s = (Raise ForeignError, s))
  ∧ (∀ (color : ColorLike) (s : TechlifeLED),
       reachable Color s →
       fst (set_color Color color s) = Raise InvalidColor →
       Color color = ValidationError).
Proof.
  split.
  - intros color s Hcol. rewrite set_color_eq, Hcol. reflexivity.
  - intros color s Hs He.
    destruct (run_wf Color Color_range (SetColor color) s
                (reachable_wf Color Color_range s Hs))
      as [_ [Hret|(color' & [= <-] & [[Hcol _]|[_ Heq]])]]; cbn [run] in *.
    + congruence.
    + exact Hcol.
    + rewrite Heq in He. discriminate.
Qed.

Lemma set_color_passes_library_error_witness :
  set_color sample_Color NotAColor (snd (set_brightness 30 init))
  = (Raise ForeignError, snd (set_brightness 30 init))
  ∧ set_color sample_Color (Tuple 0 256 0) init = (Raise ForeignError, init).
Proof.
  split.
  - apply (proj1 (set_color_passes_library_error sample_Color sample_Color_range)).
    reflexivity.
  - apply (proj1 (set_color_passes_library_error sample_Color sample_Color_range)).
    reflexivity.
Defined.

(** C9 (fields within their widths).  On every reachable controller the
    three channel levels exist and lie in [0, 10000], the brightness
    percentage exists and lies in [0, 100], and the device speed lies in
    [0, 252]; so every value handed to [_FRAME.pack] fits its field,
    [_apply_static], [animate], [on], [off] and [update] return, and no
    call raises a range error. *)
Theorem packed_fields_in_range {ColorLike : Type} (Color : ColorLike → ColorResult)
    (Color_range : ∀ color r g b, Color color = Rgb r g b →
                                  channel_ok r ∧ channel_ok g ∧ channel_ok b)
    (s : TechlifeLED) :
  reachable Color s →
  (∃ r g b red green blue pct,
      _color s = (r, g, b)
      ∧ level (_brightness s) r = Return red ∧ 0 ≤ red ≤ 10000
      ∧ level (_brightness s) g = Return green ∧ 0 ≤ green ≤ 10000
      ∧ level (_brightness s) b = Return blue ∧ 0 ≤ blue ≤ 10000
      ∧ brightness_0_100 (_brightness s) = Return pct ∧ 0 ≤ pct ≤ 100)
  ∧ 0 ≤ (100 - _animation_speed s) * 255 / 100 ≤ 252
  ∧ fst (_apply_static s) = Return tt
  ∧ (∀ enabled, fst (animate enabled s) = Return tt)
  ∧ fst (on s) = Return tt ∧ fst (off s) = Return tt ∧ fst (update s) = Return tt
  ∧ (∀ c : call ColorLike, fst (run Color c s) ≠ Raise StructError).
Proof.
  intros Hs. pose proof (reachable_wf Color Color_range s Hs) as Hwf.
  pose proof Hwf as [Hc (p & Hp & Hb) Hsp]. unfold color_ok in Hc.
  destruct (_color s) as [[r g] b] eqn:Ecol. destruct Hc as (Hr & Hg & Hbl).
  destruct (apply_static_wf s p r g b Ecol Hr Hg Hbl Hp Hb)
    as (red & green & blue & Lr & Lg & Lb & ? & ? & ? & Heq).
  split; [|split; [|split; [|split; [|split; [|split; [|split]]]]]];
    try reflexivity.
  - exists r, g, b, red, green, blue, p. rewrite Hb at 4.
    rewrite brightness_0_100_percent by exact Hp. auto 12.
  - pose proof (Z.div_pos ((100 - _animation_speed s) * 255) 100).
    pose proof (Z.div_lt_upper_bound ((100 - _animation_speed s) * 255) 100 253).
    lia.
  - now rewrite Heq.
  - intros [|]; [now rewrite animate_true_eq|unfold animate; now rewrite Heq].
  - intros c Hc.
    destruct (run_wf Color Color_range c s Hwf)
      as [_ [Hret|(color & -> & [[_ Heq']|[_ Heq']])]];
      rewrite ?Heq' in Hc; simpl in Hc; congruence.
Qed.

Lemma packed_fields_in_range_witness :
  0 ≤ (100 - _animation_speed (snd (run sample_Color (SetAnimationSpeed 1) init)))
      * 255 / 100 ≤ 252
  ∧ fst (_apply_static (snd (run sample_Color (SetAnimationSpeed 1) init)))
    = Return tt.
Proof.
  pose proof (packed_fields_in_range sample_Color sample_Color_range
                (snd (run sample_Color (SetAnimationSpeed 1) init))
                (reachable_call sample_Color (SetAnimationSpeed 1) init
                   (reachable_init sample_Color))) as H.
  split; [exact (proj1 (proj2 H))|exact (proj1 (proj2 (proj2 H)))].
Defined.

(** C10 (power and update frames).  [on], [off] and [update] return and
    publish the same bytes whatever the state of the controller; the
    bytes at offsets 2 through 13 are zero, so the checksum at offset 14
    is the sub-command byte at offset 1: 0x23 for [on], 0x24 for [off],
    0xF0 for [update]. *)
Theorem power_frames_constant (s : TechlifeLED) :
  on s = (Return tt,
          with_on true
            (publish [0xFA; 0x23; 0; 0; 0; 0; 0; 0; 0; 0; 0; 0; 0; 0; 0x23; 0xFB] s))
  ∧ off s = (Return tt,
             with_on false
               (publish [0xFA; 0x24; 0; 0; 0; 0; 0; 0; 0; 0; 0; 0; 0; 0; 0x24; 0xFB] s))
  ∧ update s = (Return tt,
                with_on true
                  (publish [0xA9; 0xF0; 0; 0; 0; 0; 0; 0; 0; 0; 0; 0; 0; 0; 0xF0; 0x9A] s))
  ∧ (∀ payload,
       In payload [[0xFA; 0x23; 0; 0; 0; 0; 0; 0; 0; 0; 0; 0; 0; 0; 0x23; 0xFB];
                   [0xFA; 0x24; 0; 0; 0; 0; 0; 0; 0; 0; 0; 0; 0; 0; 0x24; 0xFB];
                   [0xA9; 0xF0; 0; 0; 0; 0; 0; 0; 0; 0; 0; 0; 0; 0; 0xF0; 0x9A]] →
       Spec.xor_range 2 13 payload = 0
       ∧ nth 14 payload 0 = nth 1 payload 0).
Proof.
  split; [reflexivity|]. split; [reflexivity|]. split; [reflexivity|].
  intros payload [<-|[<-|[<-|[]]]]; split; reflexivity.
Qed.

(** * Further properties of the code *)

(** ** Bytes and XOR *)

Lemma land_255_byte (a : Z) : byte_ok (Z.land a 255).
Proof.
  assert (E : Z.land a 255 = a mod 2 ^ 8) by (apply (Z.land_ones a 8); lia).
  unfold byte_ok. rewrite E.
  pose proof (Z.mod_pos_bound a (2 ^ 8) ltac:(lia)). lia.
Qed.

Lemma byte_land_255 (a : Z) : byte_ok a → Z.land a 255 = a.
Proof.
  unfold byte_ok. intros H. change 255 with (Z.ones 8). rewrite Z.land_ones by lia.
  apply Z.mod_small. lia.
Qed.

Lemma land_lxor_distr (a b c : Z) :
  Z.land (Z.lxor a b) c = Z.lxor (Z.land a c) (Z.land b c).
Proof.
  apply Z.bits_inj'. intros n Hn.
  rewrite Z.land_spec, !Z.lxor_spec, !Z.land_spec.
  destruct (Z.testbit a n), (Z.testbit b n), (Z.testbit c n); reflexivity.
Qed.

Lemma byte_lxor (a b : Z) : byte_ok a → byte_ok b → byte_ok (Z.lxor a b).
Proof.
  intros Ha Hb. rewrite <- (byte_land_255 a Ha), <- (byte_land_255 b Hb).
  rewrite <- land_lxor_distr. apply land_255_byte.
Qed.

Lemma byte_xor_fold (l : list Z) : Forall byte_ok l → byte_ok (foldr Z.lxor 0 l).
Proof.
  induction 1 as [|a l Ha _ IH]; simpl.
  - unfold byte_ok. lia.
  - now apply byte_lxor.
Qed.

Lemma byte_nth (frame : list Z) (i : nat) : Forall byte_ok frame → byte_ok (nth i frame 0).
Proof.
  intros H. destruct (nth_lookup_or_length frame i 0) as [Hi|Hi].
  - rewrite Forall_lookup in H. apply (H i), Hi.
  - rewrite nth_overflow by lia. unfold byte_ok. lia.
Qed.

Lemma byte_xor_range (lo hi : nat) (frame : list Z) :
  Forall byte_ok frame → byte_ok (Spec.xor_range lo hi frame).
Proof.
  intros H. unfold Spec.xor_range. apply byte_xor_fold, Forall_forall.
  intros v Hv. apply list_elem_of_In, in_map_iff in Hv. destruct Hv as (i & <- & _).
  now apply byte_nth.
Qed.

Lemma xor_range_snoc (lo hi : nat) (frame : list Z) :
  (lo ≤ S hi)%nat →
  Spec.xor_range lo (S hi) frame
  = Z.lxor (Spec.xor_range lo hi frame) (nth (S hi) frame 0).
Proof.
  intros Hle. unfold Spec.xor_range.
  replace (S (S hi) - lo)%nat with (S (S hi - lo)) by lia.
  rewrite seq_S, map_app, foldr_app. simpl.
  replace (lo + (S hi - lo))%nat with (S hi) by lia.
  generalize (map (λ i : nat, nth i frame 0) (seq lo (S hi - lo))).
  intros l. induction l as [|a l IH]; simpl.
  - now rewrite Z.lxor_0_r.
  - rewrite IH. now rewrite Z.lxor_assoc.
Qed.

Lemma pack1_bytes (c : Struct.code) (v : Z) (bytes : list Z) :
  Struct.pack1 c v = Return bytes → Forall byte_ok bytes.
Proof.
  destruct c; simpl;
    match goal with |- (if ?b then _ else _) = _ → _ => destruct b eqn:E end;
    intros [= <-]; apply andb_true_iff in E; destruct E as [E1 E2];
    apply Z.leb_le in E1, E2.
  - constructor; [unfold byte_ok; lia|constructor].
  - constructor; [apply land_255_byte|]. constructor; [|constructor].
    unfold byte_ok. rewrite Z.shiftr_div_pow2 by lia.
    pose proof (Z.div_pos v (2 ^ 8)).
    pose proof (Z.div_lt_upper_bound v (2 ^ 8) 256). lia.
Qed.

Lemma pack_bytes (fmt : list Struct.code) (args frame : list Z) :
  Struct.pack fmt args = Return frame → Forall byte_ok frame.
Proof.
  revert args frame. induction fmt as [|c fmt IH]; intros [|v args] frame; simpl;
    try discriminate.
  - intros [= <-]. constructor.
  - destruct (Struct.pack1 c v) as [b|e] eqn:Hb; simpl; [|discriminate].
    destruct (Struct.pack fmt args) as [rest|e] eqn:Hrest; simpl; [|discriminate].
    intros [= <-]. apply Forall_app. eauto using pack1_bytes.
Qed.

(** ** [_insert_checksum] on its own *)

(** X1.  [_insert_checksum] returns exactly on frames of fifteen bytes or
    more.  On an empty or one-byte frame the slice [payload[1:14]] is
    empty and [reduce] raises TypeError; on a frame of two to fourteen
    bytes the assignment [payload[14] = checksum] raises IndexError. *)
Theorem insert_checksum_short_frames (frame : list Z) :
  ((length frame ≤ 1)%nat → _insert_checksum frame = Raise TypeError)
  ∧ ((2 ≤ length frame ≤ 14)%nat → _insert_checksum frame = Raise IndexError)
  ∧ ((15 ≤ length frame)%nat → ∃ payload, _insert_checksum frame = Return payload).
Proof.
  split; [|split].
  - intros H. destruct frame as [|a [|b frame]]; simpl in H; try lia; reflexivity.
  - intros H. destruct frame as [|a [|b frame]]; simpl in H; try lia.
    unfold _insert_checksum, slice, reduce.
    destruct (drop 1 (a :: b :: frame)) as [|x t] eqn:E; [discriminate|].
    simpl take. cbn [mbind result_bind].
    destruct (decide (14 < length (a :: b :: frame))%nat) as [Hlt|_];
      [simpl in Hlt; lia|reflexivity].
  - intros H. eexists. apply insert_checksum_eq, H.
Qed.

Lemma insert_checksum_short_frames_witness :
  _insert_checksum [] = Raise TypeError
  ∧ _insert_checksum [0xFA] = Raise TypeError
  ∧ _insert_checksum [0xFA; 0x23; 0] = Raise IndexError
  ∧ ∃ payload,
      _insert_checksum [0xFA; 0x23; 0; 0; 0; 0; 0; 0; 0; 0; 0; 0; 0; 0; 0] = Return payload.
Proof.
  split; [|split; [|split]].
  - apply (insert_checksum_short_frames []). simpl. lia.
  - apply (insert_checksum_short_frames [0xFA]). simpl. lia.
  - apply (insert_checksum_short_frames [0xFA; 0x23; 0]). simpl. lia.
  - apply (insert_checksum_short_frames
             [0xFA; 0x23; 0; 0; 0; 0; 0; 0; 0; 0; 0; 0; 0; 0; 0]). simpl. lia.
Defined.

(** X2.  [_insert_checksum] is idempotent: on its own result it returns
    that result again. *)
Theorem insert_checksum_idempotent (frame payload : list Z) :
  _insert_checksum frame = Return payload →
  _insert_checksum payload = Return payload.
Proof.
  intros H.
  assert (Hlen : (15 ≤ length frame)%nat).
  { destruct (le_lt_dec 15 (length frame)) as [Hl|Hl]; [exact Hl|].
    destruct (insert_checksum_short frame Hl) as [e He]. congruence. }
  rewrite insert_checksum_eq in H by exact Hlen. injection H as <-.
  rewrite insert_checksum_eq by (rewrite length_insert; exact Hlen).
  rewrite xor_range_insert_14, list_insert_insert_eq. reflexivity.
Qed.

Lemma insert_checksum_idempotent_witness :
  _insert_checksum [0x66; 0x25; 0; 2; 0; 0x64; 0; 0; 0; 0; 0; 0; 0; 0; 0x43; 0x99]
  = Return [0x66; 0x25; 0; 2; 0; 0x64; 0; 0; 0; 0; 0; 0; 0; 0; 0x43; 0x99].
Proof.
  apply (insert_checksum_idempotent
           [0x66; 0x25; 0; 2; 0; 0x64; 0; 0; 0; 0; 0; 0; 0; 0; 0; 0x99]).
  reflexivity.
Defined.

Lemma xor_range_insert_covered (frame : list Z) (i : nat) (v : Z) :
  (1 ≤ i ≤ 13)%nat → (i < length frame)%nat →
  Spec.xor_range 1 13 (<[i := v]> frame)
  = Z.lxor (Spec.xor_range 1 13 frame) (Z.lxor (nth i frame 0) v).
Proof.
  intros Hi Hlen. unfold Spec.xor_range.
  change (S 13 - 1)%nat with 13%nat.
  assert (Hgen : ∀ (n lo : nat),
    (lo ≤ i < lo + n)%nat →
    foldr Z.lxor 0 (map (λ j, nth j (<[i := v]> frame) 0) (seq lo n))
    = Z.lxor (foldr Z.lxor 0 (map (λ j, nth j frame 0) (seq lo n)))
             (Z.lxor (nth i frame 0) v)).
  { induction n as [|n IH]; intros lo Hlo; [lia|]. simpl.
    destruct (decide (lo = i)) as [->|Hne].
    - rewrite (nth_lookup (<[i := v]> frame)), list_lookup_insert_eq by lia. simpl.
      assert (Hrest : map (λ j, nth j (<[i := v]> frame) 0) (seq (S i) n)
                      = map (λ j, nth j frame 0) (seq (S i) n)).
      { apply map_ext_in. intros j Hj. apply in_seq in Hj.
        rewrite !nth_lookup, list_lookup_insert_ne by lia. reflexivity. }
      rewrite Hrest. generalize (foldr Z.lxor 0 (map (λ j, nth j frame 0) (seq (S i) n))).
      intros r. apply Z.bits_inj'. intros k _. rewrite !Z.lxor_spec.
      destruct (Z.testbit v k), (Z.testbit r k), (Z.testbit (nth i frame 0) k);
        reflexivity.
    - rewrite (nth_lookup (<[i := v]> frame)), list_lookup_insert_ne by congruence.
      rewrite <- nth_lookup. rewrite IH by lia. now rewrite Z.lxor_assoc. }
  apply Hgen. lia.
Qed.

(** X3.  The checksum tells apart two frames that differ in one covered
    byte: if the bytes of a frame are bytes and one of them at an offset
    from 1 to 13 is replaced by a different byte, the checksum byte at
    offset 14 changes. *)
Theorem checksum_detects_one_byte (frame : list Z) (i : nat) (v : Z) :
  Forall byte_ok frame → (15 ≤ length frame)%nat → (1 ≤ i ≤ 13)%nat →
  byte_ok v → nth i frame 0 ≠ v →
  ∃ p1 p2,
    _insert_checksum frame = Return p1
    ∧ _insert_checksum (<[i := v]> frame) = Return p2
    ∧ nth 14 p1 0 ≠ nth 14 p2 0.
Proof.
  intros Hbytes Hlen Hi Hv Hne.
  eexists _, _. split; [apply insert_checksum_eq, Hlen|].
  split; [apply insert_checksum_eq; rewrite length_insert; exact Hlen|].
  rewrite !nth_lookup, !list_lookup_insert_eq by (rewrite ?length_insert; lia).
  simpl. rewrite xor_range_insert_covered by lia.
  rewrite land_lxor_distr.
  set (d := Z.lxor (nth i frame 0) v).
  assert (Hd : byte_ok d) by (apply byte_lxor; [now apply byte_nth|exact Hv]).
  rewrite (byte_land_255 d Hd).
  intros Heq. apply Hne. apply Z.lxor_eq. fold d.
  apply (f_equal (Z.lxor (Z.land (Spec.xor_range 1 13 frame) 255))) in Heq.
  rewrite Z.lxor_nilpotent, <- Z.lxor_assoc, Z.lxor_nilpotent, Z.lxor_0_l in Heq.
  now symmetry.
Qed.

Lemma checksum_detects_one_byte_witness :
  ∃ p1 p2,
    _insert_checksum [0xFA; 0x23; 0; 0; 0; 0; 0; 0; 0; 0; 0; 0; 0; 0; 0; 0xFB]
    = Return p1
    ∧ _insert_checksum
        (<[1%nat := 0x24]> [0xFA; 0x23; 0; 0; 0; 0; 0; 0; 0; 0; 0; 0; 0; 0; 0; 0xFB])
      = Return p2
    ∧ nth 14 p1 0 ≠ nth 14 p2 0.
Proof.
  apply checksum_detects_one_byte.
  - repeat (constructor; [unfold byte_ok; lia|]). constructor.
  - simpl. lia.
  - lia.
  - unfold byte_ok. lia.
  - simpl. lia.
Defined.

(** X4.  The checksum does not cover the command byte at offset 0, nor
    the tail marker at offset 15, nor any later byte: replacing such a
    byte leaves the checksum byte at offset 14 as it was. *)
Theorem checksum_ignores_uncovered (frame : list Z) (i : nat) (v : Z) :
  (15 ≤ length frame)%nat → (i = 0 ∨ 15 ≤ i)%nat →
  ∃ p1 p2,
    _insert_checksum frame = Return p1
    ∧ _insert_checksum (<[i := v]> frame) = Return p2
    ∧ nth 14 p1 0 = nth 14 p2 0.
Proof.
  intros Hlen Hi.
  eexists _, _. split; [apply insert_checksum_eq, Hlen|].
  split; [apply insert_checksum_eq; rewrite length_insert; exact Hlen|].
  rewrite !nth_lookup, !list_lookup_insert_eq by (rewrite ?length_insert; lia).
  simpl. f_equal. unfold Spec.xor_range. f_equal. apply map_ext_in.
  intros j Hj. apply in_seq in Hj.
  rewrite !nth_lookup, list_lookup_insert_ne by lia. reflexivity.
Qed.

Lemma checksum_ignores_uncovered_witness :
  ∃ p1 p2,
    _insert_checksum [0xFA; 0x23; 0; 0; 0; 0; 0; 0; 0; 0; 0; 0; 0; 0; 0; 0xFB]
    = Return p1
    ∧ _insert_checksum
        (<[0%nat := 0xA9]> [0xFA; 0x23; 0; 0; 0; 0; 0; 0; 0; 0; 0; 0; 0; 0; 0; 0xFB])
      = Return p2
    ∧ nth 14 p1 0 = nth 14 p2 0.
Proof.
  apply checksum_ignores_uncovered.
  - simpl. lia.
  - left. reflexivity.
Defined.

(** ** The frames of a reachable controller *)

Lemma wire_image_bytes (cmd f1 f2 f3 f4 f5 f6 b1 tail : Z) :
  byte_ok cmd → byte_ok b1 → byte_ok tail →
  0 ≤ f1 ≤ 65535 → 0 ≤ f2 ≤ 65535 → 0 ≤ f3 ≤ 65535 →
  0 ≤ f4 ≤ 65535 → 0 ≤ f5 ≤ 65535 → 0 ≤ f6 ≤ 65535 →
  Forall byte_ok (wire_image cmd f1 f2 f3 f4 f5 f6 b1 tail).
Proof.
  intros Hc Hb Ht H1 H2 H3 H4 H5 H6.
  assert (Hhi : ∀ f, 0 ≤ f ≤ 65535 → byte_ok (Z.shiftr f 8)).
  { intros f Hf. unfold byte_ok. rewrite Z.shiftr_div_pow2 by lia.
    pose proof (Z.div_pos f (2 ^ 8)).
    pose proof (Z.div_lt_upper_bound f (2 ^ 8) 256). lia. }
  unfold wire_image.
  repeat (apply Forall_cons; split;
          [first [assumption | apply land_255_byte | apply Hhi; assumption]|]).
  apply Forall_nil. exact I.
Qed.

Section Frames.

Context {ColorLike : Type} (Color : ColorLike → ColorResult).

Hypothesis Color_range :
  ∀ color r g b, Color color = Rgb r g b →
                 channel_ok r ∧ channel_ok g ∧ channel_ok b.

(** The frame of a call that returns on a well-formed controller, by its
    fields. *)
Lemma run_wf_frame (c : call ColorLike) (s : TechlifeLED) :
  wf s → fst (run Color c s) = Return tt →
  match markers c with
  | Some (cmd, flag, tail) =>
      ∃ f1 f2 f3 f4 f5 f6,
        (0 ≤ f1 ≤ 65535 ∧ 0 ≤ f2 ≤ 65535 ∧ 0 ≤ f3 ≤ 65535)
        ∧ (0 ≤ f4 ≤ 65535 ∧ 0 ≤ f5 ≤ 65535 ∧ 0 ≤ f6 ≤ 65535)
        ∧ client (snd (run Color c s))
          = client s ++ [wire_image cmd f1 f2 f3 f4 f5 f6 flag tail]
  | None => client (snd (run Color c s)) = client s
  end.
Proof.
  intros Hwf Hret.
  assert (Hstatic : ∀ s', wf s' →
    ∃ f1 f2 f3 f4 f5 f6,
      (0 ≤ f1 ≤ 65535 ∧ 0 ≤ f2 ≤ 65535 ∧ 0 ≤ f3 ≤ 65535)
      ∧ (0 ≤ f4 ≤ 65535 ∧ 0 ≤ f5 ≤ 65535 ∧ 0 ≤ f6 ≤ 65535)
      ∧ client (snd (_apply_static s'))
        = client s' ++ [wire_image _CMD_SET_STATIC f1 f2 f3 f4 f5 f6
                          _FLAG_SET_STATIC _TAIL_SET_STATIC]).
  { intros s' [Hc (p & Hp & Hb) _]. unfold color_ok in Hc.
    destruct (_color s') as [[r g] b] eqn:Ecol. destruct Hc as (Hr & Hg & Hbl).
    destruct (apply_static_wf s' p r g b Ecol Hr Hg Hbl Hp Hb)
      as (red & green & blue & _ & _ & _ & ? & ? & ? & ->).
    exists red, green, blue, 0, 0, p. split; [lia|]. split; [lia|]. reflexivity. }
  destruct c as [| |color|value|speed|[|]|]; cbn [run markers] in *.
  - rewrite on_eq. exists 0x23, 0, 0, 0, 0, 0. split; [lia|]. split; [lia|]. reflexivity.
  - rewrite off_eq. exists 0x24, 0, 0, 0, 0, 0. split; [lia|]. split; [lia|]. reflexivity.
  - rewrite set_color_eq in *. destruct (Color color) as [r g b| |] eqn:Ecol;
      try discriminate.
    apply (Hstatic (with_color (r, g, b) s)).
    destruct Hwf as [_ Hb Hs]. split; [|exact Hb|exact Hs].
    apply (Color_range color), Ecol.
  - rewrite set_brightness_eq in *.
    apply (Hstatic (with_brightness
                      (fraction_of_percent (Z.max 0 (Z.min 100 value))) s)).
    destruct Hwf as [Hc' _ Hs]. split; [exact Hc'| |exact Hs].
    exists (Z.max 0 (Z.min 100 value)). split; [lia|reflexivity].
  - reflexivity.
  - rewrite animate_true_eq by apply Hwf.
    exists 0x25, ((100 - _animation_speed s) * 255 / 100), 0x64, 0, 0, 0.
    destruct Hwf as [_ _ Hsp].
    pose proof (Z.div_pos ((100 - _animation_speed s) * 255) 100).
    pose proof (Z.div_lt_upper_bound ((100 - _animation_speed s) * 255) 100 253).
    split; [lia|]. split; [lia|]. reflexivity.
  - apply (Hstatic s Hwf).
  - rewrite update_eq. exists 0xF0, 0, 0, 0, 0, 0. split; [lia|]. split; [lia|]. reflexivity.
Qed.

Lemma run_wf_new_bytes (c : call ColorLike) (s : TechlifeLED) :
  wf s →
  ∃ new, client (snd (run Color c s)) = client s ++ new
         ∧ Forall (Forall byte_ok) new.
Proof.
  intros Hwf.
  destruct (run_wf Color Color_range c s Hwf)
    as [_ [Hret|(color & -> & [[_ Heq]|[_ Heq]])]].
  - pose proof (run_wf_frame c s Hwf Hret) as H.
    destruct (markers c) as [[[cmd flag] tail]|] eqn:Em.
    + destruct H as (f1 & f2 & f3 & f4 & f5 & f6 & (? & ? & ?) & (? & ? & ?) & ->).
      eexists [_]. split; [reflexivity|]. constructor; [|constructor].
      assert (byte_ok cmd ∧ byte_ok flag ∧ byte_ok tail) as (? & ? & ?).
      { destruct c as [| |?|?|?|[|]|]; cbn [markers] in Em;
          inversion Em; subst; unfold byte_ok, _CMD_POWER, _TAIL_POWER,
            _CMD_SET_STATIC, _FLAG_SET_STATIC, _TAIL_SET_STATIC, _CMD_ANIMATE,
            _TAIL_ANIMATE, _CMD_UPDATE, _TAIL_UPDATE; lia. }
      now apply wire_image_bytes.
    + exists []. rewrite app_nil_r. split; [exact H|constructor].
  - exists []. rewrite Heq, app_nil_r. split; [reflexivity|constructor].
  - exists []. rewrite Heq, app_nil_r. split; [reflexivity|constructor].
Qed.

Lemma reachable_bytes (s : TechlifeLED) :
  reachable Color s → Forall (Forall byte_ok) (client s).
Proof.
  intros Hs. induction Hs as [|c s Hs IH]; [constructor|].
  destruct (run_wf_new_bytes c s (reachable_wf Color Color_range s Hs))
    as (new & -> & Hnew).
  apply Forall_app. auto.
Qed.

End Frames.

(** X5.  Every frame that a reachable controller has published is a
    string of sixteen bytes, each from 0 to 255, and the XOR of its bytes
    at offsets 1 through 14 is zero: a receiver can check a frame by
    folding XOR over the covered bytes and the checksum. *)
Theorem published_frames_check_to_zero {ColorLike : Type}
    (Color : ColorLike → ColorResult)
    (Color_range : ∀ color r g b, Color color = Rgb r g b →
                                  channel_ok r ∧ channel_ok g ∧ channel_ok b)
    (s : TechlifeLED) (payload : list Z) :
  reachable Color s → In payload (client s) →
  length payload = 16%nat
  ∧ Forall byte_ok payload
  ∧ Spec.xor_range 1 14 payload = 0.
Proof.
  intros Hs Hin. apply list_elem_of_In in Hin.
  pose proof (reachable_frames_ok Color s Hs) as Hok.
  pose proof (reachable_bytes Color Color_range s Hs) as Hby.
  rewrite Forall_forall in Hok, Hby.
  destruct (Hok payload Hin) as [Hlen H14]. specialize (Hby payload Hin).
  split; [exact Hlen|]. split; [exact Hby|].
  rewrite xor_range_snoc by lia. rewrite H14.
  rewrite (byte_land_255 _ (byte_xor_range 1 13 payload Hby)).
  apply Z.lxor_nilpotent.
Qed.

Lemma published_frames_check_to_zero_witness :
  length [0x66; 0x25; 0; 2; 0; 0x64; 0; 0; 0; 0; 0; 0; 0; 0; 0x43; 0x99] = 16%nat
  ∧ Forall byte_ok [0x66; 0x25; 0; 2; 0; 0x64; 0; 0; 0; 0; 0; 0; 0; 0; 0x43; 0x99]
  ∧ Spec.xor_range 1 14
      [0x66; 0x25; 0; 2; 0; 0x64; 0; 0; 0; 0; 0; 0; 0; 0; 0x43; 0x99] = 0.
Proof.
  apply (published_frames_check_to_zero sample_Color sample_Color_range
           (snd (run sample_Color (Animate true) init))).
  - apply reachable_call, reachable_init.
  - left. reflexivity.
Defined.

(** X6.  A call that returns on a reachable controller publishes one
    frame that starts with the command byte of the call, carries its flag
    byte at offset 13 and ends at offset 15 with its tail marker, which
    the checksum step leaves in place: 0xFA .. 0xFB for [on] and [off],
    0x28 .. 0x0F .. 0x29 for [set_color], [set_brightness] and
    [animate(False)], 0x66 .. 0x99 for [animate(True)], 0xA9 .. 0x9A for
    [update]; [set_animation_speed] publishes nothing. *)
Theorem published_frame_markers {ColorLike : Type}
    (Color : ColorLike → ColorResult)
    (Color_range : ∀ color r g b, Color color = Rgb r g b →
                                  channel_ok r ∧ channel_ok g ∧ channel_ok b)
    (c : call ColorLike) (s : TechlifeLED) :
  reachable Color s → fst (run Color c s) = Return tt →
  match markers c with
  | Some (cmd, flag, tail) =>
      ∃ payload,
        client (snd (run Color c s)) = client s ++ [payload]
        ∧ nth 0 payload 0 = cmd
        ∧ nth 13 payload 0 = flag
        ∧ nth 15 payload 0 = tail
  | None => client (snd (run Color c s)) = client s
  end.
Proof.
  intros Hs Hret.
  pose proof (run_wf_frame Color Color_range c s
                (reachable_wf Color Color_range s Hs) Hret) as H.
  destruct (markers c) as [[[cmd flag] tail]|]; [|exact H].
  destruct H as (f1 & f2 & f3 & f4 & f5 & f6 & _ & _ & ->).
  eexists. split; [reflexivity|]. repeat split.
Qed.

Lemma published_frame_markers_witness :
  ∃ payload,
    client (snd (run sample_Color (SetBrightness 20) init)) = client init ++ [payload]
    ∧ nth 0 payload 0 = _CMD_SET_STATIC
    ∧ nth 13 payload 0 = _FLAG_SET_STATIC
    ∧ nth 15 payload 0 = _TAIL_SET_STATIC.
Proof.
  apply (published_frame_markers sample_Color sample_Color_range
           (SetBrightness 20) init).
  - apply reachable_init.
  - vm_compute. reflexivity.
Defined.

(** ** The levels as a function of the percentage and the channel *)

Lemma check_step_rows : forallb check_step_row percents = true.
Proof. vm_compute. reflexivity. Qed.

Lemma step_checked (p x : Z) :
  0 ≤ p ≤ 100 → channel_ok x → check_step p x = true.
Proof.
  intros Hp Hx.
  assert (H : check_step_row p = true).
  { apply (forallb_below check_step_row 101 percents eq_refl check_step_rows). lia. }
  unfold check_step_row in H.
  apply (forallb_below _ 256 _ eq_refl H). unfold channel_ok in Hx. lia.
Qed.

Lemma level_value_eq (p x v : Z) :
  level (fraction_of_percent p) x = Return v → level_value p x = v.
Proof. unfold level_value. now intros ->. Qed.

Lemma level_value_returns (p x : Z) :
  0 ≤ p ≤ 100 → channel_ok x →
  level (fraction_of_percent p) x = Return (level_value p x).
Proof.
  intros Hp Hx. destruct (level_percent p x Hp Hx) as (v & Hv & _).
  now rewrite (level_value_eq p x v Hv).
Qed.

(** A function on the integers that does not go down in any single step
    of an interval does not go down across the interval. *)
Lemma monotone_steps (f : Z → Z) (lo hi : Z) :
  (∀ z, lo ≤ z < hi → f z ≤ f (z + 1)) →
  ∀ a b, lo ≤ a → a ≤ b → b ≤ hi → f a ≤ f b.
Proof.
  intros Hstep a b Ha Hab. revert b Hab.
  apply (Z.le_ind (fun b => b ≤ hi → f a ≤ f b)).
  - intros x y ->. reflexivity.
  - lia.
  - intros m Hm IH Hhi. etransitivity; [apply IH; lia|].
    apply Hstep. lia.
Qed.

(** X7.  The level never goes down when the brightness percentage or the
    colour channel goes up: for percentages p <= p' in [0, 100] and
    channels x <= x' in [0, 255], [level] returns v and v' with v <= v'. *)
Theorem level_monotone (p p' x x' : Z) :
  0 ≤ p → p ≤ p' → p' ≤ 100 → 0 ≤ x → x ≤ x' → x' ≤ 255 →
  ∃ v v', level (fraction_of_percent p) x = Return v
          ∧ level (fraction_of_percent p') x' = Return v'
          ∧ v ≤ v'.
Proof.
  intros Hp Hpp Hp' Hx Hxx Hx'.
  exists (level_value p x), (level_value p' x').
  split; [apply level_value_returns; unfold channel_ok; lia|].
  split; [apply level_value_returns; unfold channel_ok; lia|].
  transitivity (level_value p x').
  - apply (monotone_steps (level_value p) 0 255); try lia.
    intros z Hz. pose proof (step_checked p z ltac:(lia) ltac:(unfold channel_ok; lia)) as H.
    unfold check_step in H. cbv zeta in H.
    apply andb_true_iff in H. destruct H as [H _].
    apply andb_true_iff in H. destruct H as [H _]. now apply Z.leb_le.
  - apply (monotone_steps (fun q => level_value q x') 0 100); try lia.
    intros z Hz. pose proof (step_checked z x' ltac:(lia) ltac:(unfold channel_ok; lia)) as H.
    unfold check_step in H. cbv zeta in H.
    apply andb_true_iff in H. destruct H as [H _].
    apply andb_true_iff in H. destruct H as [_ H]. now apply Z.leb_le.
Qed.

Lemma level_monotone_witness :
  ∃ v v', level (fraction_of_percent 40) 200 = Return v
          ∧ level (fraction_of_percent 41) 255 = Return v'
          ∧ v ≤ v'.
Proof. apply level_monotone; lia. Defined.

Lemma level_exact (p x : Z) :
  0 ≤ p ≤ 100 → channel_ok x → ¬ In p inexact_percents →
  level (fraction_of_percent p) x = Return (Spec.channel_exact x p).
Proof.
  intros Hp Hx Hnot.
  rewrite (level_value_returns p x Hp Hx). f_equal.
  pose proof (step_checked p x Hp Hx) as H. unfold check_step in H. cbv zeta in H.
  apply andb_true_iff in H. destruct H as [_ H].
  apply orb_true_iff in H. destruct H as [H|H]; [|now apply Z.eqb_eq].
  exfalso. apply Hnot. apply existsb_exists in H. destruct H as (q & Hq & E).
  apply Z.eqb_eq in E. now subst q.
Qed.

(** X8.  Away from the percentages 29, 41, 57, 58, 69 and 82 the double
    arithmetic of [level] loses nothing: the level is
    floor(x * 10000 * p / (100 * 255)) for every channel x; at each of
    those six percentages some channel gets one less. *)
Theorem level_exact_away_from_six :
  (∀ p x, 0 ≤ p ≤ 100 → channel_ok x → ¬ In p inexact_percents →
          level (fraction_of_percent p) x = Return (Spec.channel_exact x p))
  ∧ (∀ p, In p inexact_percents →
          ∃ x, channel_ok x
               ∧ level (fraction_of_percent p) x
                 = Return (Spec.channel_exact x p - 1)).
Proof.
  split; [exact level_exact|].
  intros p Hp. unfold inexact_percents in Hp. simpl in Hp.
  destruct Hp as [<-|[<-|[<-|[<-|[<-|[<-|[]]]]]]].
  - exists 153. split; [unfold channel_ok; lia|vm_compute; reflexivity].
  - exists 255. split; [unfold channel_ok; lia|vm_compute; reflexivity].
  - exists 17. split; [unfold channel_ok; lia|vm_compute; reflexivity].
  - exists 153. split; [unfold channel_ok; lia|vm_compute; reflexivity].
  - exists 17. split; [unfold channel_ok; lia|vm_compute; reflexivity].
  - exists 255. split; [unfold channel_ok; lia|vm_compute; reflexivity].
Qed.

Lemma level_exact_away_from_six_witness :
  level (fraction_of_percent 50) 255 = Return (Spec.channel_exact 255 50)
  ∧ ∃ x, channel_ok x
         ∧ level (fraction_of_percent 41) x = Return (Spec.channel_exact x 41 - 1).
Proof.
  split.
  - apply (proj1 level_exact_away_from_six); [lia|unfold channel_ok; lia|].
    unfold inexact_percents. simpl. lia.
  - apply (proj2 level_exact_away_from_six). unfold inexact_percents. simpl. lia.
Defined.

(** ** How the calls compose *)

(** X9.  [set_brightness] with an argument of zero or less darkens the
    strip without touching the power flag: with colour channels in range
    it returns and publishes one Set-Static-Color frame whose three
    channel fields and brightness field are all zero, whatever the
    colour. *)
Theorem zero_brightness_is_dark (s : TechlifeLED) (value : Z) :
  value ≤ 0 → color_ok s →
  ∃ payload,
    fst (set_brightness value s) = Return tt
    ∧ client (snd (set_brightness value s)) = client s ++ [payload]
    ∧ nth 0 payload 0 = 0x28
    ∧ Spec.u16_field 1 payload = 0
    ∧ Spec.u16_field 2 payload = 0
    ∧ Spec.u16_field 3 payload = 0
    ∧ Spec.u16_field 6 payload = 0
    ∧ is_on (snd (set_brightness value s)) = is_on s
    ∧ _color (snd (set_brightness value s)) = _color s.
Proof.
  intros Hv Hc. rewrite set_brightness_eq.
  replace (Z.max 0 (Z.min 100 value)) with 0 by lia.
  unfold color_ok in Hc. destruct (_color s) as [[r g] b] eqn:Ecol.
  destruct Hc as (Hr & Hg & Hb).
  assert (Hzero : ∀ x, channel_ok x → level (fraction_of_percent 0) x = Return 0).
  { intros x Hx.
    rewrite (level_exact 0 x ltac:(lia) Hx)
      by (unfold inexact_percents; simpl; lia).
    unfold Spec.channel_exact. now rewrite Z.mul_0_r. }
  rewrite (apply_static_eq (with_brightness (fraction_of_percent 0) s)
             r g b 0 0 0 0 Ecol (Hzero r Hr) (Hzero g Hg) (Hzero b Hb))
    by (try apply brightness_0_100_percent; lia).
  eexists. repeat split. exact Ecol.
Qed.

Lemma zero_brightness_is_dark_witness :
  ∃ payload,
    fst (set_brightness (-3) init) = Return tt
    ∧ client (snd (set_brightness (-3) init)) = client init ++ [payload]
    ∧ nth 0 payload 0 = 0x28
    ∧ Spec.u16_field 1 payload = 0
    ∧ Spec.u16_field 2 payload = 0
    ∧ Spec.u16_field 3 payload = 0
    ∧ Spec.u16_field 6 payload = 0
    ∧ is_on (snd (set_brightness (-3) init)) = is_on init
    ∧ _color (snd (set_brightness (-3) init)) = _color init.
Proof.
  apply zero_brightness_is_dark; [lia|].
  unfold color_ok, channel_ok. simpl. lia.
Defined.

(** X10.  An argument out of range acts exactly as the nearest bound:
    [set_brightness(v)] has the outcome, the frame and the final object
    of [set_brightness] at v clamped into [0, 100], and
    [set_animation_speed(v)] those of [set_animation_speed] at v clamped
    into [1, 100]. *)
Theorem out_of_range_acts_as_bound (s : TechlifeLED) (v : Z) :
  set_brightness v s = set_brightness (Spec.clamp 0 100 v) s
  ∧ set_animation_speed v s = set_animation_speed (Spec.clamp 1 100 v) s.
Proof.
  split.
  - rewrite !set_brightness_eq. rewrite <- (clamp_max_min 0 100 v) by lia.
    do 3 f_equal. lia.
  - rewrite !set_animation_speed_eq. rewrite <- (clamp_max_min 1 100 v) by lia.
    do 2 f_equal. lia.
Qed.

Section Compose.

Context {ColorLike : Type} (Color : ColorLike → ColorResult).

Hypothesis Color_range :
  ∀ color r g b, Color color = Rgb r g b →
                 channel_ok r ∧ channel_ok g ∧ channel_ok b.

(** X11.  [animate(False)] brings back the static display: on a
    reachable controller, after a [set_color] that returns and then
    [animate(True)], the frame that [animate(False)] publishes is the very
    frame that [set_color] published; all three calls return. *)
Theorem animate_false_restores (color : ColorLike) (s : TechlifeLED) :
  reachable Color s → fst (set_color Color color s) = Return tt →
  ∃ static moving,
    client (snd (set_color Color color s)) = client s ++ [static]
    ∧ animate true (snd (set_color Color color s))
      = (Return tt, publish moving (snd (set_color Color color s)))
    ∧ animate false (publish moving (snd (set_color Color color s)))
      = (Return tt, publish static (publish moving (snd (set_color Color color s)))).
Proof.
  intros Hs Hret. pose proof (reachable_wf Color Color_range s Hs) as Hwf.
  rewrite set_color_eq in *.
  destruct (Color color) as [r g b| |] eqn:Ecol; try discriminate.
  assert (Hwf1 : wf (with_color (r, g, b) s)).
  { destruct Hwf as [_ Hb Hsp]. split; [|exact Hb|exact Hsp].
    apply (Color_range color), Ecol. }
  destruct (wf_apply_static _ Hwf1) as (static & Heq & _).
  rewrite Heq. cbn [snd].
  set (s1 := publish static (with_color (r, g, b) s)).
  assert (Hsp1 : 1 ≤ _animation_speed s1 ≤ 100) by apply Hwf.
  exists static, (wire_image 0x66 0x25 ((100 - _animation_speed s1) * 255 / 100)
                    0x64 0 0 0 0 0x99).
  split; [reflexivity|]. split; [now apply animate_true_eq|].
  unfold animate.
  destruct (apply_static_reads (with_color (r, g, b) s)) as [res Hres].
  rewrite (Hres (with_color (r, g, b) s)) in Heq by reflexivity.
  rewrite Hres by reflexivity.
  destruct res as [payload|e]; [|discriminate].
  injection Heq as Heq. apply app_inv_head in Heq. injection Heq as ->. reflexivity.
Qed.

(** X12.  A call changes only the attribute it is for: [_color] changes
    under [set_color] alone, [_brightness] under [set_brightness] alone,
    [_animation_speed] under [set_animation_speed] alone, in every state
    and whether the call returns or raises; and a [set_color] that the
    colour library accepts stores the resolved channels. *)
Theorem calls_keep_other_attributes (c : call ColorLike) (s : TechlifeLED) :
  ((∀ color, c ≠ SetColor color) → _color (snd (run Color c s)) = _color s)
  ∧ ((∀ value, c ≠ SetBrightness value) →
     _brightness (snd (run Color c s)) = _brightness s)
  ∧ ((∀ speed, c ≠ SetAnimationSpeed speed) →
     _animation_speed (snd (run Color c s)) = _animation_speed s)
  ∧ (∀ color r g b, c = SetColor color → Color color = Rgb r g b →
       _color (snd (run Color c s)) = (r, g, b)).
Proof.
  pose proof (fun s' => sends_attributes _ s' (apply_static_cases s')) as Hst.
  pose proof (sends_attributes _ s (animate_true_cases s)) as Han.
  pose proof (fun s' => proj1 (proj2 (Hst s'))) as Hstb.
  pose proof (fun s' => proj1 (proj2 (proj2 (Hst s')))) as Hstc.
  pose proof (fun s' => proj2 (proj2 (proj2 (Hst s')))) as Hsts.
  cbv beta in Hstb, Hstc, Hsts.
  assert (Hcases :
    (∃ color, c = SetColor color) ∨ (∃ value, c = SetBrightness value)
    ∨ (∃ speed, c = SetAnimationSpeed speed)
    ∨ (∃ s', (s' = s ∨ s' = with_on true s ∨ s' = with_on false s)
             ∧ _color (snd (run Color c s)) = _color s'
             ∧ _brightness (snd (run Color c s)) = _brightness s'
             ∧ _animation_speed (snd (run Color c s)) = _animation_speed s'
             ∧ (∀ color, c ≠ SetColor color))).
  { destruct c as [| |color|value|speed|[|]|]; eauto; do 3 right.
    - exists (with_on true s). repeat split; auto; discriminate.
    - exists (with_on false s). repeat split; auto; discriminate.
    - exists s. cbn [run]. destruct Han as (_ & ? & ? & ?).
      repeat split; auto; discriminate.
    - exists s. cbn [run]. unfold animate. destruct (Hst s) as (_ & ? & ? & ?).
      repeat split; auto; discriminate.
    - exists (with_on true s). repeat split; auto; discriminate. }
  destruct Hcases as [[color ->]|[[value ->]|[[speed ->]|
    (s' & Hs' & Hc & Hb & Hsp & Hne)]]]; cbn [run].
  - rewrite set_color_eq. repeat split.
    + intros H. now destruct (H color).
    + intros _. destruct (Color color) as [r g b| |]; try reflexivity.
      exact (Hstb (with_color (r, g, b) s)).
    + intros _. destruct (Color color) as [r g b| |]; try reflexivity.
      exact (Hsts (with_color (r, g, b) s)).
    + intros color' r g b [= <-] ->. exact (Hstc (with_color (r, g, b) s)).
  - rewrite set_brightness_eq. repeat split.
    + intros _. exact (Hstc (with_brightness _ s)).
    + intros H. now destruct (H value).
    + intros _. exact (Hsts (with_brightness _ s)).
    + intros; discriminate.
  - repeat split.
    + intros H. now destruct (H speed).
    + intros; discriminate.
  - rewrite Hc, Hb, Hsp.
    repeat split; try (intros _; destruct Hs' as [->|[->| ->]]; reflexivity).
    intros color r g b ->. now destruct (Hne color).
Qed.

End Compose.

Lemma animate_false_restores_witness :
  ∃ static moving,
    client (snd (set_color sample_Color (Hex x00 xff x80) init)) = client init ++ [static]
    ∧ animate true (snd (set_color sample_Color (Hex x00 xff x80) init))
      = (Return tt, publish moving (snd (set_color sample_Color (Hex x00 xff x80) init)))
    ∧ animate false (publish moving (snd (set_color sample_Color (Hex x00 xff x80) init)))
      = (Return tt,
         publish static
           (publish moving (snd (set_color sample_Color (Hex x00 xff x80) init)))).
Proof.
  apply (animate_false_restores sample_Color sample_Color_range).
  - apply reachable_init.
  - vm_compute. reflexivity.
Defined.

Lemma calls_keep_other_attributes_witness :
  _color (snd (run sample_Color (SetBrightness 10) init)) = _color init
  ∧ _brightness (snd (run sample_Color (SetColor (Tuple 1 2 3)) init))
    = _brightness init
  ∧ _animation_speed (snd (run sample_Color (Animate true) init))
    = _animation_speed init
  ∧ _color (snd (run sample_Color (SetColor (Tuple 1 2 3)) init)) = (1, 2, 3).
Proof.
  split; [|split; [|split]].
  - apply (calls_keep_other_attributes sample_Color (SetBrightness 10) init).
    discriminate.
  - apply (calls_keep_other_attributes sample_Color (SetColor (Tuple 1 2 3)) init).
    discriminate.
  - apply (calls_keep_other_attributes sample_Color (Animate true) init).
    discriminate.
  - apply (proj2 (proj2 (proj2
             (calls_keep_other_attributes sample_Color (SetColor (Tuple 1 2 3)) init)))
             (Tuple 1 2 3) 1 2 3); reflexivity.
Defined.

(** X13.  The speed dial is inverted without collisions: of two
    controllers with stored speeds in [1, 100], the one with the higher
    speed publishes under [animate(True)] a device-speed field that is
    lower by at least two. *)
Theorem higher_speed_lower_device_value (s1 s2 : TechlifeLED) :
  1 ≤ _animation_speed s1 → _animation_speed s1 < _animation_speed s2 →
  _animation_speed s2 ≤ 100 →
  ∃ p1 p2,
    animate true s1 = (Return tt, publish p1 s1)
    ∧ animate true s2 = (Return tt, publish p2 s2)
    ∧ Spec.u16_field 2 p2 + 2 ≤ Spec.u16_field 2 p1.
Proof.
  intros H1 H12 H2. eexists _, _.
  split; [apply animate_true_eq; lia|]. split; [apply animate_true_eq; lia|].
  pose proof (wire_image_fields 0x66 0x25 ((100 - _animation_speed s1) * 255 / 100)
                0x64 0 0 0 0 0x99) as F1.
  pose proof (wire_image_fields 0x66 0x25 ((100 - _animation_speed s2) * 255 / 100)
                0x64 0 0 0 0 0x99) as F2.
  cbv zeta in F1, F2. destruct F1 as (_ & _ & -> & _). destruct F2 as (_ & _ & -> & _).
  pose proof (Z.div_mod ((100 - _animation_speed s1) * 255) 100 ltac:(lia)).
  pose proof (Z.mod_pos_bound ((100 - _animation_speed s1) * 255) 100 ltac:(lia)).
  pose proof (Z.div_mod ((100 - _animation_speed s2) * 255) 100 ltac:(lia)).
  pose proof (Z.mod_pos_bound ((100 - _animation_speed s2) * 255) 100 ltac:(lia)).
  lia.
Qed.

Lemma higher_speed_lower_device_value_witness :
  ∃ p1 p2,
    animate true (with_animation_speed 50 init)
    = (Return tt, publish p1 (with_animation_speed 50 init))
    ∧ animate true (with_animation_speed 51 init)
      = (Return tt, publish p2 (with_animation_speed 51 init))
    ∧ Spec.u16_field 2 p2 + 2 ≤ Spec.u16_field 2 p1.
Proof.
  apply higher_speed_lower_device_value; simpl; lia.
Defined.

(** X14.  What [get_brightness] reports is what goes on the wire: on a
    reachable controller it returns a percentage from 0 to 100, and the
    frame that [_apply_static] publishes carries that percentage in its
    brightness field. *)
Theorem reported_brightness_is_sent {ColorLike : Type}
    (Color : ColorLike → ColorResult)
    (Color_range : ∀ color r g b, Color color = Rgb r g b →
                                  channel_ok r ∧ channel_ok g ∧ channel_ok b)
    (s : TechlifeLED) :
  reachable Color s →
  ∃ p payload,
    get_brightness s = Return p
    ∧ 0 ≤ p ≤ 100
    ∧ _apply_static s = (Return tt, publish payload s)
    ∧ Spec.u16_field 6 payload = p.
Proof.
  intros Hs. pose proof (reachable_wf Color Color_range s Hs) as [Hc (p & Hp & Hb) _].
  unfold color_ok in Hc. destruct (_color s) as [[r g] b] eqn:Ecol.
  destruct Hc as (Hr & Hg & Hbl).
  destruct (apply_static_wf s p r g b Ecol Hr Hg Hbl Hp Hb)
    as (red & green & blue & _ & _ & _ & _ & _ & _ & Heq).
  exists p, (wire_image 0x28 red green blue 0 0 p 0x0F 0x29).
  split; [now apply get_brightness_percent|]. split; [exact Hp|].
  split; [exact Heq|].
  pose proof (wire_image_fields 0x28 red green blue 0 0 p 0x0F 0x29) as F.
  cbv zeta in F. tauto.
Qed.

Lemma reported_brightness_is_sent_witness :
  ∃ p payload,
    get_brightness (snd (run sample_Color (SetBrightness 33) init)) = Return p
    ∧ 0 ≤ p ≤ 100
    ∧ _apply_static (snd (run sample_Color (SetBrightness 33) init))
      = (Return tt, publish payload (snd (run sample_Color (SetBrightness 33) init)))
    ∧ Spec.u16_field 6 payload = p.
Proof.
  apply (reported_brightness_is_sent sample_Color sample_Color_range).
  apply reachable_call, reachable_init.
Defined.

(** ** Sequences of calls *)

Section SequenceProperties.

Context {ColorLike : Type} (Color : ColorLike → ColorResult).

Lemma run_attributes (c : call ColorLike) (s : TechlifeLED) :
  _brightness (snd (run Color c s))
  = match c with
    | SetBrightness value => fraction_of_percent (Z.max 0 (Z.min 100 value))
    | _ => _brightness s
    end
  ∧ _animation_speed (snd (run Color c s))
    = match c with
      | SetAnimationSpeed speed => Z.max 1 (Z.min 100 speed)
      | _ => _animation_speed s
      end
  ∧ _color (snd (run Color c s))
    = match c with
      | SetColor color =>
          match Color color with
          | Rgb r g b => (r, g, b)
          | _ => _color s
          end
      | _ => _color s
      end.
Proof.
  pose proof (fun s' => sends_attributes _ s' (apply_static_cases s')) as Hst.
  pose proof (sends_attributes _ s (animate_true_cases s)) as Han.
  destruct c as [| |color|value|speed|[|]|]; cbn [run];
    rewrite ?set_color_eq, ?set_brightness_eq; try (repeat split; reflexivity).
  - destruct (Color color) as [r g b| |]; try (repeat split; reflexivity).
    destruct (Hst (with_color (r, g, b) s)) as (_ & H1 & H2 & H3).
    rewrite H1, H2, H3. repeat split.
  - destruct (Hst (with_brightness
                     (fraction_of_percent (Z.max 0 (Z.min 100 value))) s))
      as (_ & H1 & H2 & H3).
    rewrite H1, H2, H3. repeat split.
  - tauto.
  - unfold animate. destruct (Hst s) as (_ & H1 & H2 & H3). tauto.
Qed.

(** X15.  Over any sequence of calls the power flag follows the last of
    [on], [off] and [update] in the sequence ([on] and [update] set it,
    [off] clears it), and is the initial flag when there is none; calls
    that raise in between make no difference. *)
Theorem power_follows_last_power_call (cs : list (call ColorLike)) (s : TechlifeLED) :
  is_on (run_all Color cs s) = power_after cs (is_on s).
Proof.
  revert s. induction cs as [|c cs IH]; intros s; [reflexivity|].
  cbn [run_all]. rewrite IH. unfold power_after at 2. cbn [foldl].
  unfold is_on. rewrite run_on. destruct c; reflexivity.
Qed.

(** X16.  Over any sequence of calls each attribute keeps its last
    writer: the stored speed is the clamped argument of the last
    [set_animation_speed], the stored colour the channels of the last
    [set_color] that the colour library accepted, and [get_brightness]
    returns the clamped argument of the last [set_brightness]; a call
    that raises in between, such as [set_color] with a rejected colour,
    loses nothing. *)
Theorem attributes_follow_last_writer (cs : list (call ColorLike))
    (s : TechlifeLED) (p : Z) :
  0 ≤ p ≤ 100 → _brightness s = fraction_of_percent p →
  get_brightness (run_all Color cs s) = Return (percent_after cs p)
  ∧ _animation_speed (run_all Color cs s) = speed_after cs (_animation_speed s)
  ∧ _color (run_all Color cs s) = color_after Color cs (_color s).
Proof.
  revert s p. induction cs as [|c cs IH]; intros s p Hp Hb.
  - split; [now apply get_brightness_percent|]. split; reflexivity.
  - cbn [run_all]. unfold percent_after, speed_after, color_after. cbn [foldl].
    destruct (run_attributes c s) as (Eb & Es & Ec).
    fold (percent_after cs (match c with
                            | SetBrightness value => Spec.clamp 0 100 value
                            | _ => p end)).
    fold (speed_after cs (match c with
                          | SetAnimationSpeed speed => Spec.clamp 1 100 speed
                          | _ => _animation_speed s end)).
    fold (color_after Color cs (match c with
                                | SetColor color =>
                                    match Color color with
                                    | Rgb r g b => (r, g, b)
                                    | _ => _color s
                                    end
                                | _ => _color s end)).
    assert (Es' : _animation_speed (snd (run Color c s))
                  = match c with
                    | SetAnimationSpeed speed => Spec.clamp 1 100 speed
                    | _ => _animation_speed s end).
    { rewrite Es. destruct c; try reflexivity. apply clamp_max_min. lia. }
    rewrite <- Es', <- Ec.
    apply IH.
    + destruct c; try exact Hp. unfold Spec.clamp.
      destruct (value <? 0) eqn:E1; [lia|]. destruct (100 <? value) eqn:E2; [lia|].
      apply Z.ltb_ge in E1, E2. lia.
    + rewrite Eb. destruct c; try exact Hb. now rewrite clamp_max_min by lia.
Qed.

End SequenceProperties.

Lemma attributes_follow_last_writer_witness :
  get_brightness
    (run_all sample_Color
       [SetBrightness 20; SetColor (Hex x0a x0b x0c); SetColor NotAColor;
        SetAnimationSpeed 500; SetBrightness 130; Animate true] init)
  = Return 100
  ∧ _animation_speed
      (run_all sample_Color
         [SetBrightness 20; SetColor (Hex x0a x0b x0c); SetColor NotAColor;
          SetAnimationSpeed 500; SetBrightness 130; Animate true] init)
    = 100
  ∧ _color
      (run_all sample_Color
         [SetBrightness 20; SetColor (Hex x0a x0b x0c); SetColor NotAColor;
          SetAnimationSpeed 500; SetBrightness 130; Animate true] init)
    = (10, 11, 12).
Proof.
  apply (attributes_follow_last_writer sample_Color
           [SetBrightness 20; SetColor (Hex x0a x0b x0c); SetColor NotAColor;
            SetAnimationSpeed 500; SetBrightness 130; Animate true] init 100).
  - lia.
  - reflexivity.
Defined.

(** X17.  Colour and brightness can be set in either order: on a
    reachable controller, [set_color] then [set_brightness] and
    [set_brightness] then [set_color] all return, and both orders end in
    the same stored colour and brightness and with the same frame
    published last. *)
Theorem color_and_brightness_commute {ColorLike : Type}
    (Color : ColorLike → ColorResult)
    (Color_range : ∀ color r g b, Color color = Rgb r g b →
                                  channel_ok r ∧ channel_ok g ∧ channel_ok b)
    (color : ColorLike) (value : Z) (s : TechlifeLED) :
  reachable Color s → (∃ r g b, Color color = Rgb r g b) →
  ∃ payload,
    fst (set_color Color color s) = Return tt
    ∧ fst (set_brightness value (snd (set_color Color color s))) = Return tt
    ∧ fst (set_brightness value s) = Return tt
    ∧ fst (set_color Color color (snd (set_brightness value s))) = Return tt
    ∧ last (client (snd (set_brightness value (snd (set_color Color color s)))))
      = Some payload
    ∧ last (client (snd (set_color Color color (snd (set_brightness value s)))))
      = Some payload
    ∧ _color (snd (set_brightness value (snd (set_color Color color s))))
      = _color (snd (set_color Color color (snd (set_brightness value s))))
    ∧ _brightness (snd (set_brightness value (snd (set_color Color color s))))
      = _brightness (snd (set_color Color color (snd (set_brightness value s)))).
Proof.
  intros Hs (r & g & b & Ecol).
  pose proof (reachable_wf Color Color_range s Hs) as Hwf.
  pose proof (Color_range color r g b Ecol) as Hrgb.
  set (B := fraction_of_percent (Z.max 0 (Z.min 100 value))).
  assert (HB : ∃ p, 0 ≤ p ≤ 100 ∧ B = fraction_of_percent p).
  { exists (Z.max 0 (Z.min 100 value)). split; [lia|reflexivity]. }
  rewrite !set_color_eq, Ecol, !set_brightness_eq. fold B.
  (* first order: colour, then brightness *)
  assert (W1 : wf (with_color (r, g, b) s)).
  { destruct Hwf as [_ Hb Hsp]. split; [exact Hrgb|exact Hb|exact Hsp]. }
  destruct (wf_apply_static _ W1) as (f1 & E1 & _). rewrite E1. cbn [fst snd].
  assert (W2 : wf (with_brightness B (publish f1 (with_color (r, g, b) s)))).
  { destruct Hwf as [_ _ Hsp]. split; [exact Hrgb|exact HB|exact Hsp]. }
  destruct (wf_apply_static _ W2) as (f2 & E2 & _). rewrite E2. cbn [fst snd].
  (* second order: brightness, then colour *)
  assert (W3 : wf (with_brightness B s)).
  { destruct Hwf as [Hc _ Hsp]. split; [exact Hc|exact HB|exact Hsp]. }
  destruct (wf_apply_static _ W3) as (f3 & E3 & _). rewrite E3. cbn [fst snd].
  assert (W4 : wf (with_color (r, g, b) (publish f3 (with_brightness B s)))).
  { destruct Hwf as [_ _ Hsp]. split; [exact Hrgb|exact HB|exact Hsp]. }
  destruct (wf_apply_static _ W4) as (f4 & E4 & _). rewrite E4. cbn [fst snd].
  (* the two last frames are the frame of the same colour and brightness *)
  assert (f4 = f2) as ->.
  { destruct (apply_static_reads
                (with_brightness B (publish f1 (with_color (r, g, b) s))))
      as [res Hres].
    rewrite Hres in E2 by reflexivity. rewrite Hres in E4 by reflexivity.
    destruct res as [payload|e]; [|discriminate].
    injection E2 as E2. injection E4 as E4.
    apply app_inv_head in E2, E4. congruence. }
  exists f2. repeat split; try reflexivity; simpl; now rewrite last_snoc.
Qed.

Lemma color_and_brightness_commute_witness :
  ∃ payload,
    fst (set_color sample_Color (Tuple 9 8 7) init) = Return tt
    ∧ fst (set_brightness 41 (snd (set_color sample_Color (Tuple 9 8 7) init)))
      = Return tt
    ∧ fst (set_brightness 41 init) = Return tt
    ∧ fst (set_color sample_Color (Tuple 9 8 7) (snd (set_brightness 41 init)))
      = Return tt
    ∧ last (client (snd (set_brightness 41
                           (snd (set_color sample_Color (Tuple 9 8 7) init)))))
      = Some payload
    ∧ last (client (snd (set_color sample_Color (Tuple 9 8 7)
                           (snd (set_brightness 41 init)))))
      = Some payload
    ∧ _color (snd (set_brightness 41
                     (snd (set_color sample_Color (Tuple 9 8 7) init))))
      = _color (snd (set_color sample_Color (Tuple 9 8 7)
                       (snd (set_brightness 41 init))))
    ∧ _brightness (snd (set_brightness 41
                          (snd (set_color sample_Color (Tuple 9 8 7) init))))
      = _brightness (snd (set_color sample_Color (Tuple 9 8 7)
                            (snd (set_brightness 41 init)))).
Proof.
  apply (color_and_brightness_commute sample_Color sample_Color_range).
  - apply reachable_init.
  - exists 9, 8, 7. reflexivity.
Defined.

(** ** The channel fields of the static frame *)




